(** * Multi-agent job search: the workflow core, embedded and verified

    A shallow embedding of [src/utils.py], [src/agents.py] and
    [src/graph.py].  Python values are modelled as the JSON-like values
    the program handles, exceptions by a result type, the three
    LLM-backed agents by functions from the prompt to their outcome. *)

From Stdlib Require Import String Ascii ZArith NArith Bool Arith Lia List.
From Stdlib Require Import DecimalString DecimalNat.
Import ListNotations.

Set Implicit Arguments.

(** ** Python values *)

Module Py.

(** A Python [str] is a sequence of code points. *)
Abbreviation char := N (only parsing).
Abbreviation pystr := (list N).

(** An ASCII literal as a [str]. *)
Definition py (s : string) : pystr := map N_of_ascii (list_ascii_of_string s).

(** The same, an apostrophe in the literal standing for the double quote. *)
Definition pyq (s : string) : pystr :=
  map (fun c => if N.eqb c 39 then 34%N else c) (py s).

Definition LF : pystr := [10%N].

Fixpoint pystr_eqb (a b : pystr) : bool :=
  match a, b with
  | [], [] => true
  | x :: a', y :: b' => N.eqb x y && pystr_eqb a' b'
  | _, _ => false
  end.

(** A Python [float], kept as the decimal it was read from: [FDec m e] is
    [m * 10^e].  Rounding to binary64 is not modelled. *)
Inductive float := FNaN | FInf (neg : bool) | FDec (m e : Z).

(** The values [json.loads] builds: [None], [bool], [int], [float], [str],
    [list] and [dict] with [str] keys.  A [dict] keeps its keys in insertion
    order. *)
#[warnings="-register-all"]
Inductive json :=
| JNull
| JBool (b : bool)
| JInt (z : Z)
| JFloat (f : float)
| JStr (s : pystr)
| JArr (l : list json)
| JObj (d : list (pystr * json)).

Abbreviation dict := (list (list N * json)).

(** [d.get(k)] as an option, [d.get(k, dflt)] and [d[k] = v]. *)
Fixpoint dict_lookup (k : pystr) (d : dict) : option json :=
  match d with
  | [] => None
  | (k', v) :: d' => if pystr_eqb k' k then Some v else dict_lookup k d'
  end.

Definition dict_get (d : dict) (k : pystr) (dflt : json) : json :=
  match dict_lookup k d with Some v => v | None => dflt end.

Fixpoint dict_set (k : pystr) (v : json) (d : dict) : dict :=
  match d with
  | [] => [(k, v)]
  | (k', v') :: d' =>
      if pystr_eqb k' k then (k', v) :: d' else (k', v') :: dict_set k v d'
  end.

(** Exceptions: the class name and [str(e)]. *)
Record exn := Exn { exn_class : pystr; exn_msg : pystr }.

Inductive result (A : Type) :=
| Ok (a : A)
| Raise (e : exn).
Arguments Ok {A} a.
Arguments Raise {A} e.

Definition bind {A B} (r : result A) (f : A -> result B) : result B :=
  match r with Ok a => f a | Raise e => Raise e end.

(** [type(v).__name__] *)
Definition type_name (v : json) : pystr :=
  match v with
  | JNull => py "NoneType"
  | JBool _ => py "bool"
  | JInt _ => py "int"
  | JFloat _ => py "float"
  | JStr _ => py "str"
  | JArr _ => py "list"
  | JObj _ => py "dict"
  end.

Definition AttributeError (v : json) (attr : pystr) : exn :=
  Exn (py "AttributeError")
      (py "'" ++ type_name v ++ py "' object has no attribute '" ++ attr ++ py "'").

Definition TypeError (msg : pystr) : exn := Exn (py "TypeError") msg.

(** Truth value of an object ([if v], [not v], [v or w]). *)
Definition truthy (v : json) : bool :=
  match v with
  | JNull => false
  | JBool b => b
  | JInt z => negb (Z.eqb z 0)
  | JFloat (FDec m _) => negb (Z.eqb m 0)
  | JFloat _ => true
  | JStr s => match s with [] => false | _ => true end
  | JArr l => match l with [] => false | _ => true end
  | JObj d => match d with [] => false | _ => true end
  end.

(** [len(v)]: defined on [str], [list] and [dict]. *)
Definition py_len (v : json) : result nat :=
  match v with
  | JStr s => Ok (length s)
  | JArr l => Ok (length l)
  | JObj d => Ok (length d)
  | _ => Raise (TypeError (py "object of type '" ++ type_name v ++ py "' has no len()"))
  end.

(** [v.get(k, dflt)]: only a [dict] has the method. *)
Definition get_method (v : json) (k : pystr) (dflt : json) : result json :=
  match v with
  | JObj d => Ok (dict_get d k dflt)
  | _ => Raise (AttributeError v (py "get"))
  end.

(** Hashable values: everything but [list] and [dict]. *)
Definition hashable (v : json) : bool :=
  match v with JArr _ | JObj _ => false | _ => true end.

Definition unhashable (v : json) : exn :=
  TypeError (py "unhashable type: '" ++ type_name v ++ py "'").

(** [==] on hashable values.  [bool], [int] and [float] compare by their
    number; NaN equals nothing. *)
Definition as_number (v : json) : option (Z * Z) :=
  match v with
  | JBool b => Some (if b then 1%Z else 0%Z, 0%Z)
  | JInt z => Some (z, 0%Z)
  | JFloat (FDec m e) => Some (m, e)
  | _ => None
  end.

Definition dec_eqb (a b : Z * Z) : bool :=
  let '(m1, e1) := a in
  let '(m2, e2) := b in
  let e := Z.min e1 e2 in
  Z.eqb (m1 * 10 ^ (e1 - e)) (m2 * 10 ^ (e2 - e)).

Definition py_eqb (a b : json) : bool :=
  match a, b with
  | JNull, JNull => true
  | JStr s, JStr t => pystr_eqb s t
  | JFloat (FInf n1), JFloat (FInf n2) => Bool.eqb n1 n2
  | _, _ =>
      match as_number a, as_number b with
      | Some x, Some y => dec_eqb x y
      | _, _ => false
      end
  end.

(** [set(l)] for a list [l], kept as the list of its elements: building the
    set hashes every element. *)
Definition py_set (l : list json) : result (list json) :=
  match find (fun v => negb (hashable v)) l with
  | Some v => Raise (unhashable v)
  | None => Ok l
  end.

(** [v in st] for a set [st]: hashes [v], then compares. *)
Definition set_contains (st : list json) (v : json) : result bool :=
  if hashable v then Ok (existsb (py_eqb v) st) else Raise (unhashable v).

End Py.
Export Py.

Declare Scope result_scope.
Delimit Scope result_scope with result.
Notation "x <- c1 ;; c2" := (bind c1 (fun x => c2))
  (at level 61, c1 at next level, right associativity) : result_scope.

(** ** Regular expressions: the part of Python's [re] that [utils.py] uses

    A backtracking matcher, as [re] is: alternatives are tried in order and
    the first complete match wins.  Repetition is over a one-character atom,
    which is all the two patterns need. *)

Module Re.

#[local] Open Scope N_scope.

Inductive regex :=
| Chr (c : char)                           (* a literal character *)
| Lit (s : pystr)                          (* a literal string *)
| Seq (r1 r2 : regex)
| Opt (r : regex)                          (* [r?], greedy *)
| Star (greedy : bool) (p : char -> bool)  (* [x*] and [x*?] *)
| Group (r : regex).                       (* capturing group 1 *)


(** [.] under [re.DOTALL] *)
Definition any_char (c : char) : bool := true.

(** [\s] in a [str] pattern: the characters [str.isspace] accepts. *)
Definition is_space (c : char) : bool :=
  ((9 <=? c) && (c <=? 13)) || ((28 <=? c) && (c <=? 32))
  || (c =? 133) || (c =? 160) || (c =? 5760)
  || ((8192 <=? c) && (c <=? 8202))
  || (c =? 8232) || (c =? 8233) || (c =? 8239) || (c =? 8287) || (c =? 12288).

Section Matcher.
Variable A : Type.

(** The continuation receives the position reached, the text left and the
    span of group 1. *)
Definition cont := nat -> pystr -> option (nat * nat) -> option A.

Fixpoint match_lit (l : pystr) (pos : nat) (s : pystr) : option (nat * pystr) :=
  match l with
  | [] => Some (pos, s)
  | c :: l' =>
      match s with
      | x :: s' => if x =? c then match_lit l' (S pos) s' else None
      | [] => None
      end
  end.

(** [x*?]: try the rest of the pattern first, take one more character
    only when that fails. *)
Fixpoint star_lazy (p : char -> bool) (pos : nat) (s : pystr)
         (k : nat -> pystr -> option A) : option A :=
  match k pos s with
  | Some m => Some m
  | None =>
      match s with
      | x :: s' => if p x then star_lazy p (S pos) s' k else None
      | [] => None
      end
  end.

(** [x*]: take as many characters as possible, give them back one by one. *)
Fixpoint star_greedy (p : char -> bool) (pos : nat) (s : pystr)
         (k : nat -> pystr -> option A) : option A :=
  match s with
  | x :: s' =>
      if p x then
        match star_greedy p (S pos) s' k with
        | Some m => Some m
        | None => k pos s
        end
      else k pos s
  | [] => k pos s
  end.

Fixpoint rmatch (r : regex) (pos : nat) (s : pystr) (g : option (nat * nat))
         (k : cont) : option A :=
  match r with
  | Chr c =>
      match s with
      | x :: s' => if x =? c then k (S pos) s' g else None
      | [] => None
      end
  | Lit l =>
      match match_lit l pos s with
      | Some (pos', s') => k pos' s' g
      | None => None
      end
  | Seq r1 r2 => rmatch r1 pos s g (fun pos1 s1 g1 => rmatch r2 pos1 s1 g1 k)
  | Opt r1 =>
      match rmatch r1 pos s g k with
      | Some m => Some m
      | None => k pos s g
      end
  | Star greedy p =>
      (if greedy then star_greedy else star_lazy) p pos s
        (fun pos' s' => k pos' s' g)
  | Group r1 => rmatch r1 pos s g (fun pos' s' _ => k pos' s' (Some (pos, pos')))
  end.
End Matcher.

(** A match object: the span of the whole match and of group 1. *)
Record match_obj := MatchObj {
  m_start : nat;
  m_end : nat;
  m_span1 : option (nat * nat)
}.

(** [re.search]: the leftmost position at which the pattern matches. *)
Fixpoint search_from (r : regex) (pos : nat) (s : pystr) : option match_obj :=
  match rmatch r pos s None (fun e _ g => Some (MatchObj pos e g)) with
  | Some m => Some m
  | None =>
      match s with
      | _ :: s' => search_from r (S pos) s'
      | [] => None
      end
  end.

Definition search (r : regex) (text : pystr) : option match_obj :=
  search_from r 0 text.


(** [text[i:j]] *)
Definition slice (text : pystr) (i j : nat) : pystr := firstn (j - i) (skipn i text).

Definition group0 (text : pystr) (m : match_obj) : pystr :=
  slice text (m_start m) (m_end m).

(** [m.group(1)]; [None] when the group took no part in the match. *)
Definition group1 (text : pystr) (m : match_obj) : option pystr :=
  match m_span1 m with
  | Some (i, j) => Some (slice text i j)
  | None => None
  end.

End Re.

(** ** JSON decoding: Python's [json.loads]

    Follows [json.decoder] and [json.scanner]: [scanstring], [JSONObject],
    [JSONArray], the number pattern and the three extra constants.  The
    decoder's recursion is bounded by a step budget ([OutOfFuel]); the
    budget [json_loads] gives it is never used up (see
    [scan_once_enough_fuel]). *)

Module Json.

#[local] Open Scope N_scope.

Inductive parsed (A : Type) :=
| Parsed (a : A) (rest : pystr)
| Invalid                                  (* [JSONDecodeError] *)
| OutOfFuel.
Arguments Parsed {A} a rest.
Arguments Invalid {A}.
Arguments OutOfFuel {A}.

(** JSON whitespace: space, tab, line feed, carriage return. *)
Definition is_ws (c : char) : bool :=
  (c =? 32) || (c =? 9) || (c =? 10) || (c =? 13).

Fixpoint skip_ws (s : pystr) : pystr :=
  match s with
  | c :: s' => if is_ws c then skip_ws s' else s
  | [] => []
  end.

Definition is_digit (c : char) : bool := (48 <=? c) && (c <=? 57).

Definition hex_digit (c : char) : option N :=
  if (48 <=? c) && (c <=? 57) then Some (c - 48)
  else if (97 <=? c) && (c <=? 102) then Some (c - 87)
  else if (65 <=? c) && (c <=? 70) then Some (c - 55)
  else None.

(** The four hexadecimal digits of a [\uXXXX] escape. *)
Definition decode_uXXXX (h1 h2 h3 h4 : char) : option N :=
  match hex_digit h1, hex_digit h2, hex_digit h3, hex_digit h4 with
  | Some a, Some b, Some c, Some d => Some (((a * 16 + b) * 16 + c) * 16 + d)
  | _, _, _, _ => None
  end.

(** The one-character escapes. *)
Definition backslash (c : char) : option char :=
  if c =? 34 then Some 34        (* quote *)
  else if c =? 92 then Some 92   (* backslash *)
  else if c =? 47 then Some 47   (* slash *)
  else if c =? 98 then Some 8    (* b *)
  else if c =? 102 then Some 12  (* f *)
  else if c =? 110 then Some 10  (* n *)
  else if c =? 114 then Some 13  (* r *)
  else if c =? 116 then Some 9   (* t *)
  else None.

Definition cons_char (c : char) (r : option (pystr * pystr)) : option (pystr * pystr) :=
  match r with
  | Some (str, rest) => Some (c :: str, rest)
  | None => None
  end.

(** [scanstring], strict: the text after the opening quote, up to the closing
    one.  A high surrogate followed by an escaped low surrogate is joined. *)
Fixpoint scanstring (s : pystr) : option (pystr * pystr) :=
  match s with
  | [] => None
  | c :: s1 =>
      if c =? 34 then Some ([], s1)
      else if c =? 92 then
        match s1 with
        | [] => None
        | e :: s2 =>
            if e =? 117 then
              match s2 with
              | h1 :: h2 :: h3 :: h4 :: s3 =>
                  match decode_uXXXX h1 h2 h3 h4 with
                  | None => None
                  | Some uni =>
                      if (55296 <=? uni) && (uni <=? 56319) then
                        match s3 with
                        | a :: b :: s4 =>
                            if (a =? 92) && (b =? 117) then
                              match s4 with
                              | g1 :: g2 :: g3 :: g4 :: s5 =>
                                  match decode_uXXXX g1 g2 g3 g4 with
                                  | None => None
                                  | Some uni2 =>
                                      if (56320 <=? uni2) && (uni2 <=? 57343) then
                                        cons_char
                                          (65536 + ((uni - 55296) * 1024 + (uni2 - 56320)))
                                          (scanstring s5)
                                      else cons_char uni (scanstring s3)
                                  end
                              | _ => None
                              end
                            else cons_char uni (scanstring s3)
                        | _ => cons_char uni (scanstring s3)
                        end
                      else cons_char uni (scanstring s3)
                  end
              | _ => None
              end
            else
              match backslash e with
              | Some ch => cons_char ch (scanstring s2)
              | None => None
              end
        end
      else if c <? 32 then None
      else cons_char c (scanstring s1)
  end.

Fixpoint take_digits (s : pystr) : pystr * pystr :=
  match s with
  | c :: s' =>
      if is_digit c then let (ds, r) := take_digits s' in (c :: ds, r) else ([], s)
  | [] => ([], [])
  end.

Definition digits_value (ds : pystr) : Z :=
  fold_left (fun acc c => (acc * 10 + Z.of_N (c - 48))%Z) ds 0%Z.

(** An optional sign: whether it is there, and the text after it. *)
Definition take_sign (sign : char) (s : pystr) : bool * pystr :=
  match s with
  | c :: t => if c =? sign then (true, t) else (false, s)
  | [] => (false, s)
  end.

(** The integer part of the number pattern: an optional minus sign, then
    either [0] or a digit other than [0] followed by digits. *)
Definition match_integer (s : pystr) : option (bool * pystr * pystr) :=
  let (neg, s1) := take_sign 45 s in
  match s1 with
  | c :: t =>
      if c =? 48 then Some (neg, [c], t)
      else if is_digit c then let (ds, r) := take_digits t in Some (neg, c :: ds, r)
      else None
  | [] => None
  end.

(** The optional fraction: a dot and at least one digit. *)
Definition match_frac (s : pystr) : pystr * pystr :=
  match take_sign 46 s with
  | (true, t) =>
      match take_digits t with
      | ([], _) => ([], s)
      | (fd, r) => (fd, r)
      end
  | (false, _) => ([], s)
  end.

(** The optional exponent: [e] or [E], an optional sign, at least one digit. *)
Definition match_exp (s : pystr) : option Z * pystr :=
  match s with
  | e :: t =>
      if (e =? 101) || (e =? 69) then
        let (neg, t1) := take_sign 45 t in
        let t2 := if neg then t1 else snd (take_sign 43 t) in
        match take_digits t2 with
        | ([], _) => (None, s)
        | (ed, r) => (Some (if neg then (- digits_value ed)%Z else digits_value ed), r)
        end
      else (None, s)
  | [] => (None, s)
  end.

(** A number: an [int] when it has neither fraction nor exponent, else a
    [float]. *)
Definition match_number (s : pystr) : option (json * pystr) :=
  match match_integer s with
  | None => None
  | Some (neg, ds, r) =>
      let (fd, r1) := match_frac r in
      let (ex, r2) := match_exp r1 in
      let sign (z : Z) := if neg then (- z)%Z else z in
      match fd, ex with
      | [], None => Some (JInt (sign (digits_value ds)), r2)
      | _, _ =>
          Some (JFloat (FDec (sign (digits_value (ds ++ fd)))
                             (match ex with Some x => x | None => 0 end
                              - Z.of_nat (length fd))%Z), r2)
      end
  end.

(** [s[idx:idx+len(w)] == w], returning the text after [w]. *)
Fixpoint strip_prefix (w s : pystr) : option pystr :=
  match w with
  | [] => Some s
  | c :: w' =>
      match s with
      | x :: s' => if x =? c then strip_prefix w' s' else None
      | [] => None
      end
  end.

(** The scalar cases of [scan_once], tried in the decoder's order. *)
Definition scan_scalar (s : pystr) : parsed json :=
  match strip_prefix (py "null") s with
  | Some r => Parsed JNull r
  | None =>
  match strip_prefix (py "true") s with
  | Some r => Parsed (JBool true) r
  | None =>
  match strip_prefix (py "false") s with
  | Some r => Parsed (JBool false) r
  | None =>
  match match_number s with
  | Some (v, r) => Parsed v r
  | None =>
  match strip_prefix (py "NaN") s with
  | Some r => Parsed (JFloat FNaN) r
  | None =>
  match strip_prefix (py "Infinity") s with
  | Some r => Parsed (JFloat (FInf false)) r
  | None =>
  match strip_prefix (py "-Infinity") s with
  | Some r => Parsed (JFloat (FInf true)) r
  | None => Invalid
  end end end end end end end.

(** One round of [scan_once], of the loop of [JSONArray] (entered where an
    element is expected) and of the loop of [JSONObject] (entered after the
    opening quote of a key); [scan], [array] and [object] are the calls the
    round makes. *)
Section Rounds.
Variable scan : pystr -> parsed json.
Variable array : pystr -> list json -> parsed json.
Variable object : pystr -> dict -> parsed json.

Definition scan_round (s : pystr) : parsed json :=
  match s with
  | [] => Invalid
  | c :: t =>
      if c =? 34 then
        match scanstring t with
        | Some (str, r) => Parsed (JStr str) r
        | None => Invalid
        end
      else if c =? 123 then
        match skip_ws t with
        | c1 :: t1 =>
            if c1 =? 34 then object t1 []
            else if c1 =? 125 then Parsed (JObj []) t1
            else Invalid
        | [] => Invalid
        end
      else if c =? 91 then
        match skip_ws t with
        | c1 :: t1 =>
            if c1 =? 93 then Parsed (JArr []) t1
            else array (c1 :: t1) []
        | [] => Invalid
        end
      else scan_scalar s
  end.

Definition array_round (s : pystr) (acc : list json) : parsed json :=
  match scan s with
  | Parsed v r =>
      match skip_ws r with
      | c1 :: r1 =>
          if c1 =? 93 then Parsed (JArr (rev (v :: acc))) r1
          else if c1 =? 44 then array (skip_ws r1) (v :: acc)
          else Invalid
      | [] => Invalid
      end
  | Invalid => Invalid
  | OutOfFuel => OutOfFuel
  end.

Definition object_round (s : pystr) (acc : dict) : parsed json :=
  match scanstring s with
  | None => Invalid
  | Some (key, r) =>
      match skip_ws r with
      | c1 :: r1 =>
          if c1 =? 58 then
            match scan (skip_ws r1) with
            | Parsed v r2 =>
                match skip_ws r2 with
                | c2 :: r3 =>
                    if c2 =? 125 then Parsed (JObj (dict_set key v acc)) r3
                    else if c2 =? 44 then
                      match skip_ws r3 with
                      | c3 :: r4 =>
                          if c3 =? 34 then object r4 (dict_set key v acc)
                          else Invalid
                      | [] => Invalid
                      end
                    else Invalid
                | [] => Invalid
                end
            | Invalid => Invalid
            | OutOfFuel => OutOfFuel
            end
          else Invalid
      | [] => Invalid
      end
  end.
End Rounds.

(** The decoder: every call takes one step of the budget. *)
Fixpoint scan_once (fuel : nat) (s : pystr) : parsed json :=
  match fuel with
  | O => OutOfFuel
  | S fuel' => scan_round (array_items fuel') (object_items fuel') s
  end

with array_items (fuel : nat) (s : pystr) (acc : list json) : parsed json :=
  match fuel with
  | O => OutOfFuel
  | S fuel' => array_round (scan_once fuel') (array_items fuel') s acc
  end

with object_items (fuel : nat) (s : pystr) (acc : dict) : parsed json :=
  match fuel with
  | O => OutOfFuel
  | S fuel' => object_round (scan_once fuel') (object_items fuel') s acc
  end.

Definition enough_fuel (s : pystr) : nat := 2 * length s + 1.

(** A byte order mark at the start is refused. *)
Definition has_bom (s : pystr) : bool :=
  match s with
  | c :: _ => c =? 65279
  | [] => false
  end.

(** [json.loads(s)]: [None] stands for [JSONDecodeError]. *)
Definition json_loads (s : pystr) : option json :=
  if has_bom s then None
  else
    let s1 := skip_ws s in
    match scan_once (enough_fuel s1) s1 with
    | Parsed v r => match skip_ws r with [] => Some v | _ => None end
    | _ => None
    end.

End Json.

(** ** [src/utils.py] *)

Module Utils.
Import Re Json.

#[local] Open Scope N_scope.

(** The pattern of the first [re.search]: three backquotes, an optional
    [json], white space, the group: a bracket, any text taken lazily, a
    bracket; then white space and three backquotes. *)
Definition fenced_array : regex :=
  Seq (Lit (py "```"))
 (Seq (Opt (Lit (py "json")))
 (Seq (Star true is_space)
 (Seq (Group (Seq (Chr 91) (Seq (Star false any_char) (Chr 93))))
 (Seq (Star true is_space)
      (Lit (py "```")))))).

(** The pattern of the second [re.search]: a bracket, any text taken
    lazily, a bracket. *)
Definition bare_array : regex :=
  Seq (Chr 91) (Seq (Star false any_char) (Chr 93)).


(** [try: return json.loads(json_str) except json.JSONDecodeError: return []].
    The candidate starts with a bracket, so what is decoded is a list
    ([json_loads_bracket]). *)
Definition loads_or_empty (json_str : pystr) : list json :=
  match json_loads json_str with
  | Some (JArr l) => l
  | Some _ => []
  | None => []
  end.

Definition extract_json_from_markdown (text : pystr) : list json :=
  match search fenced_array text with
  | Some m =>
      match group1 text m with
      | Some json_str => loads_or_empty json_str
      | None => []
      end
  | None =>
      match search bare_array text with
      | Some m => loads_or_empty (group0 text m)
      | None => []
      end
  end.

(** What an agent hands back: a [dict] with a list of messages, or anything
    else.  A message may lack the [content] attribute, and its content may
    be something other than a [str]. *)
Inductive content :=
| Text (s : pystr)
| NonText (truth : bool).

Record message := Message { msg_content : option content }.

Inductive agent_result :=
| ResultDict (messages : list message)
| ResultOther.

Definition result_messages (r : agent_result) : list message :=
  match r with
  | ResultDict msgs => msgs
  | ResultOther => []
  end.

(** [msgs[-1]] of a non-empty list *)
Definition last_message (msgs : list message) : option message :=
  match msgs with
  | [] => None
  | m :: ms => Some (last ms m)
  end.

(** The messages are printed on the way; printing leaves no trace in the
    result. *)
Definition extract_agent_results (r : agent_result) : list json :=
  match last_message (result_messages r) with
  | None => []
  | Some m =>
      match msg_content m with
      | Some (Text answer) => extract_json_from_markdown answer
      | _ => []
      end
  end.

End Utils.

(** ** [src/agents.py] *)

Module Agents.
Import Utils.

(** The world outside the program: the three agent executors, each a
    function of the prompt it is given that returns a result or raises, and
    the two library functions whose output only the agents read. *)
Record World := {
  search_agent_executor : pystr -> result agent_result;
  screen_agent_executor : pystr -> result agent_result;
  tailor_agent_executor : pystr -> result agent_result;
  json_dumps : json -> pystr;
  py_str : json -> pystr
}.

Section WithWorld.
Variable W : World.

Definition opt_str (o : option pystr) : json :=
  match o with Some x => JStr x | None => JNull end.

Definition invoke_search (seed_terms : list pystr) (location : option pystr)
  : result (list json) :=
  let user_input :=
    json_dumps W (JObj [(py "terms", JArr (map JStr seed_terms));
                        (py "location", opt_str location)]) in
  (r <- search_agent_executor W user_input ;;
   Ok (extract_agent_results r))%result.

Definition invoke_screen (jobs : list json) (resume_path : pystr)
  : result (list json) :=
  match jobs with
  | [] => Ok []
  | _ =>
      let prompt :=
        py "Given jobs=" ++ json_dumps W (JArr jobs)
        ++ py " and resume_path=" ++ resume_path ++ py ". "
        ++ py "Return the relevant jobs as a JSON array." in
      (r <- screen_agent_executor W prompt ;;
       Ok (extract_agent_results r))%result
  end.

Definition tailor_prompt (selected_jobs : list json) (resume_path : pystr) : pystr :=
  py "For the following jobs and the given resume path:" ++ LF
  ++ py "- Resume path: " ++ resume_path ++ LF
  ++ py "- Jobs: " ++ json_dumps W (JArr selected_jobs) ++ LF ++ LF
  ++ py "Steps:" ++ LF
  ++ py "1) Use ParseResumePDF to load the resume text." ++ LF
  ++ py "2) For each job, create 4-6 concise bullet points and a short summary aligning the resume to that job." ++ LF
  ++ py "3) For each job, call WriteTailoredResumeSection with path='tailored_resume.txt' and the tailored section." ++ LF
  ++ py "Output: Return ONLY a JSON array where each item is {{'id': <job id>, 'preview': <<=300 chars>}}. No prose.".

(** [getattr(last, 'content', '') or ''], then the extraction when that
    is a [str]. *)
Definition final_array (msgs : list message) : list json :=
  match last_message msgs with
  | None => extract_json_from_markdown []
  | Some m =>
      match msg_content m with
      | None => extract_json_from_markdown []
      | Some (Text t) => extract_json_from_markdown t
      | Some (NonText true) => []
      | Some (NonText false) => extract_json_from_markdown []
      end
  end.

(** The loop that fills [out]. *)
Fixpoint previews (arr : list json) (out : dict) : result dict :=
  match arr with
  | [] => Ok out
  | item :: rest =>
      let d := if truthy item then item else JObj [] in
      (jid <- get_method d (py "id") (JStr (py "unknown")) ;;
       prev <- get_method d (py "preview") (JStr []) ;;
       previews rest (dict_set (py_str W jid) prev out))%result
  end.

(** [try: ... except Exception as e: ...] *)
Definition try_except {A} (body : result A) (handler : exn -> result A) : result A :=
  match body with
  | Ok a => Ok a
  | Raise e => handler e
  end.

Definition invoke_tailor (selected_jobs : list json) (resume_path : pystr)
  : result dict :=
  match selected_jobs with
  | [] => Ok []
  | _ =>
      let prompt := tailor_prompt selected_jobs resume_path in
      try_except
        (r <- tailor_agent_executor W prompt ;;
         previews (final_array (result_messages r)) [])%result
        (fun e => Ok [(py "error", JStr (py "Tailor call failed: " ++ exn_msg e))])
  end.

End WithWorld.

End Agents.

(** ** [src/graph.py] *)

Module Graph.
Import Utils Agents.

(** [class State(TypedDict, total=False)]: every key may be absent.
    [location] may also be present and [None]. *)
Record State := mkState {
  seed_terms : option (list pystr);
  location : option (option pystr);
  resume_pdf_path : option pystr;
  jobs : option (list json);
  needs_enrichment : option bool;
  enriched_jobs : option (list json);
  ranked_jobs : option (list json);
  shortlisted_jobs : option (list json);
  selected_jobs : option (list json);
  tailored_resumes : option dict
}.

(** [{**s, key: value}], one definition per key a node writes. *)
Definition with_jobs (s : State) (v : list json) : State :=
  mkState (seed_terms s) (location s) (resume_pdf_path s) (Some v)
          (needs_enrichment s) (enriched_jobs s) (ranked_jobs s)
          (shortlisted_jobs s) (selected_jobs s) (tailored_resumes s).

Definition with_needs_enrichment (s : State) (v : bool) : State :=
  mkState (seed_terms s) (location s) (resume_pdf_path s) (jobs s)
          (Some v) (enriched_jobs s) (ranked_jobs s)
          (shortlisted_jobs s) (selected_jobs s) (tailored_resumes s).

Definition with_enriched_jobs (s : State) (v : list json) : State :=
  mkState (seed_terms s) (location s) (resume_pdf_path s) (jobs s)
          (needs_enrichment s) (Some v) (ranked_jobs s)
          (shortlisted_jobs s) (selected_jobs s) (tailored_resumes s).

Definition with_ranked_jobs (s : State) (v : list json) : State :=
  mkState (seed_terms s) (location s) (resume_pdf_path s) (jobs s)
          (needs_enrichment s) (enriched_jobs s) (Some v)
          (shortlisted_jobs s) (selected_jobs s) (tailored_resumes s).

Definition with_shortlisted_jobs (s : State) (v : list json) : State :=
  mkState (seed_terms s) (location s) (resume_pdf_path s) (jobs s)
          (needs_enrichment s) (enriched_jobs s) (ranked_jobs s)
          (Some v) (selected_jobs s) (tailored_resumes s).

Definition with_selected_jobs (s : State) (v : list json) : State :=
  mkState (seed_terms s) (location s) (resume_pdf_path s) (jobs s)
          (needs_enrichment s) (enriched_jobs s) (ranked_jobs s)
          (shortlisted_jobs s) (Some v) (tailored_resumes s).

Definition with_tailored_resumes (s : State) (v : dict) : State :=
  mkState (seed_terms s) (location s) (resume_pdf_path s) (jobs s)
          (needs_enrichment s) (enriched_jobs s) (ranked_jobs s)
          (shortlisted_jobs s) (selected_jobs s) (Some v).

(** [s.get(key, default)] *)
Definition get {A} (field : option A) (default : A) : A :=
  match field with Some v => v | None => default end.

(** [s.get('location')] *)
Definition get_location (s : State) : option pystr :=
  match location s with Some l => l | None => None end.

(** [x or y] on strings *)
Definition str_or (x : option pystr) (y : pystr) : pystr :=
  match x with
  | Some (c :: l) => c :: l
  | _ => y
  end.

Definition job (id source title company loc description : pystr) : json :=
  JObj [(py "id", JStr id); (py "source", JStr source); (py "title", JStr title);
        (py "company", JStr company); (py "location", JStr loc);
        (py "description", JStr description)].

(** The jobs the search node falls back on. *)
Definition fallback_jobs (location : option pystr) : list json :=
  [ job (py "stub_li_0") (py "linkedin") (py "Python Engineer") (py "EnterpriseCo")
        (str_or location (py "Remote"))
        (py "Looking for python engineers with cloud and data experience.");
    job (py "stub_li_1") (py "linkedin") (py "Backend Engineer") (py "ScaleUp")
        (str_or location (py "Remote"))
        (py "Looking for backend engineers with cloud and data experience.");
    job (py "stub_yc_0") (py "ycombinator") (py "Python Engineer") (py "StartupCo")
        (str_or location (py "Remote"))
        (py "Seeking python engineer to build MVP features across stack.") ].

(** A node runs to its end, suspends in [interrupt], or raises. *)
Record payload := Payload { instruction : pystr; payload_ranked_jobs : list json }.

Inductive outcome :=
| Next (s : State)
| Interrupt (p : payload)
| Raised (e : exn).

Definition of_result (r : result State) : outcome :=
  match r with Ok s => Next s | Raise e => Raised e end.

Section Nodes.
Variable W : World.

Definition n_search (s : State) : result State :=
  let terms := get (seed_terms s) [py "python"; py "ml"] in
  let location := get_location s in
  (found <- invoke_search W terms location ;;
   let jobs := match found with
               | [] => fallback_jobs location
               | _ => found
               end in
   Ok (with_needs_enrichment (with_jobs s jobs) (12 <? length jobs)))%result.

(** [dict(j)].  A job is a [Dict] by the State schema and is copied.  Of
    the values outside the schema, an empty string or list gives the empty
    dict, a number, a truth value or [None] raises [TypeError]; a
    non-empty string or list is read as a sequence of key-value pairs,
    which the model does not follow: it stops with the error Python
    raises when an element is not a pair. *)
Definition py_dict (j : json) : result dict :=
  match j with
  | JObj d => Ok d
  | JStr [] | JArr [] => Ok []
  | JStr _ | JArr _ =>
      Raise (TypeError (py "cannot convert dictionary update sequence element #0 to a sequence"))
  | _ => Raise (TypeError (py "'" ++ type_name j ++ py "' object is not iterable"))
  end.

Definition enrich_job (j : json) : result json :=
  (d <- py_dict j ;;
   n <- py_len (dict_get d (py "description") (JStr [])) ;;
   Ok (JObj (dict_set (py "enriched_tag")
                      (JStr (if 50 <? n then py "long-desc" else py "short-desc"))
                      d)))%result.

(** The loop of [n_enrich]: jobs are tagged in order, the first failure
    ends it. *)
Fixpoint enrich_all (js : list json) : result (list json) :=
  match js with
  | [] => Ok []
  | j :: rest =>
      (j' <- enrich_job j ;;
       rest' <- enrich_all rest ;;
       Ok (j' :: rest'))%result
  end.

Definition n_enrich (s : State) : result State :=
  (enriched <- enrich_all (get (jobs s) []) ;;
   Ok (with_enriched_jobs s enriched))%result.

(** [s.get('enriched_jobs') or s.get('jobs', [])] *)
Definition base_jobs (s : State) : list json :=
  match enriched_jobs s with
  | Some (j :: js) => j :: js
  | _ => get (jobs s) []
  end.

Definition n_screen (s : State) : result State :=
  let resume_path := get (resume_pdf_path s) [] in
  (ranked <- invoke_screen W (base_jobs s) resume_path ;;
   Ok (with_shortlisted_jobs (with_ranked_jobs s (firstn 10 ranked))
                             (firstn 10 ranked)))%result.

(** The loop over the ranked jobs when the selection is a list of ids:
    [j.get('id') in id_set] is evaluated for every job, also after two
    have been chosen. *)
Fixpoint choose_by_id (id_set : list json) (ranked chosen : list json)
  : result (list json) :=
  match ranked with
  | [] => Ok chosen
  | j :: rest =>
      (id <- get_method j (py "id") JNull ;;
       hit <- set_contains id_set id ;;
       choose_by_id id_set rest
         (if hit && (length chosen <? 2) then chosen ++ [j] else chosen))%result
  end.

(** What [n_select] does with the value [interrupt] returned. *)
Definition resolve_selection (selection : json) (ranked : list json)
  : result (list json) :=
  (chosen <-
     match selection with
     | JArr (JStr first :: others) =>
         id_set <- py_set (JStr first :: others) ;;
         choose_by_id id_set ranked []
     | JArr (JObj first :: others) => Ok (firstn 2 (JObj first :: others))
     | _ => Ok []
     end ;;
   Ok (match chosen with
       | [] => firstn 2 ranked
       | _ => chosen
       end))%result.

(** [resume] is what [interrupt(payload)] finds: nothing on the first
    execution of the node, which then suspends; the resume value when the
    node is executed again for the resumed run. *)
Definition n_select (resume : option json) (s : State) : outcome :=
  match selected_jobs s with
  | None =>
      let p := Payload (py "Select top 2 job IDs or objects to tailor.")
                       (get (ranked_jobs s) []) in
      match resume with
      | None => Interrupt p
      | Some selection =>
          match resolve_selection selection (get (ranked_jobs s) []) with
          | Ok chosen => Next (with_selected_jobs s chosen)
          | Raise e => Raised e
          end
      end
  | Some _ => Next s
  end.

Definition n_tailor (s : State) : result State :=
  let selected := get (selected_jobs s) [] in
  let resume_path := get (resume_pdf_path s) [] in
  (tailored <- invoke_tailor W selected resume_path ;;
   Ok (with_tailored_resumes s tailored))%result.

Definition route_from_search (s : State) : pystr :=
  match needs_enrichment s with
  | Some true => py "enrich"
  | _ => py "screen"
  end.

(** The graph [build_graph] assembles. *)
Inductive node :=
| search_agent
| enrich_node
| screen_agent
| human_select_interrupt
| tailor_agent.

Inductive target := To (n : node) | END.

Definition node_fn (n : node) (resume : option json) (s : State) : outcome :=
  match n with
  | search_agent => of_result (n_search s)
  | enrich_node => of_result (n_enrich s)
  | screen_agent => of_result (n_screen s)
  | human_select_interrupt => n_select resume s
  | tailor_agent => of_result (n_tailor s)
  end.

Definition entry_point : node := search_agent.

(** [path_map[label]] *)
Fixpoint lookup_label (l : pystr) (mapping : list (pystr * node)) : option node :=
  match mapping with
  | [] => None
  | (l', n) :: rest => if pystr_eqb l' l then Some n else lookup_label l rest
  end.

Definition conditional_edges
  : list (node * (State -> pystr) * list (pystr * node)) :=
  [ (search_agent, route_from_search,
     [(py "enrich", enrich_node); (py "screen", screen_agent)]) ].

Definition edges : list (node * target) :=
  [ (enrich_node, To screen_agent);
    (screen_agent, To human_select_interrupt);
    (human_select_interrupt, To tailor_agent);
    (tailor_agent, END) ].

End Nodes.

End Graph.

(** ** The graph engine and the checkpoint store

    [build_graph] hands its nodes and edges to [StateGraph] and compiles
    them with a [MemorySaver]; neither is part of the repository's sources. *)

Module Engine.
Import Utils Agents Graph.

Definition node_eqb (a b : node) : bool :=
  match a, b with
  | search_agent, search_agent
  | enrich_node, enrich_node
  | screen_agent, screen_agent
  | human_select_interrupt, human_select_interrupt
  | tailor_agent, tailor_agent => true
  | _, _ => false
  end.

(** Modelled from the spec: the record the Checkpoint Store keeps for a run
    (the class of [MemorySaver] is missing from the sources): the state at
    suspension, the pending node and the payload it offered. *)
Record checkpoint := Checkpoint {
  ck_state : State;
  ck_pending : node;
  ck_payload : payload
}.

Definition run_id := pystr.

(** How many nodes a walk from a node can still execute. *)
Definition rank (n : node) : nat :=
  match n with
  | search_agent => 5
  | enrich_node => 4
  | screen_agent => 3
  | human_select_interrupt => 2
  | tailor_agent => 1
  end.

(** Modelled from the spec: the Checkpoint Store (the class of
    [MemorySaver] is missing from the sources), a map from run identifiers
    to checkpoints with [save] and [load]. *)
Definition store := run_id -> option checkpoint.

Definition empty_store : store := fun _ => None.

Definition load (st : store) (id : run_id) : option checkpoint := st id.

Definition save (st : store) (id : run_id) (ck : checkpoint) : store :=
  fun id' => if pystr_eqb id id' then Some ck else st id'.

(** Modelled from the spec: what [invoke] returns (the engine behind
    [g.compile] is missing from the sources): a completed or a suspended
    result, or a hard error. *)
Inductive fault :=
| NodeRaised (e : exn)       (* a node raised *)
| CheckpointMiss             (* resume asked for an unknown run *)
| NoEdge                     (* no edge leaves the node *)
| StepLimit.                 (* the engine's bound on the number of steps *)

Inductive execution_result :=
| Completed (s : State)
| Suspended (s : State) (n : node) (p : payload)
| Fault (f : fault).

Inductive invoke_input :=
| Fresh (initial : State)
| Resume (value : json).

Section WithWorld.
Variable W : World.

Fixpoint lookup_edge (n : node) (es : list (node * target)) : option target :=
  match es with
  | [] => None
  | (n', t) :: rest => if node_eqb n' n then Some t else lookup_edge n rest
  end.

Fixpoint lookup_conditional (n : node)
         (ces : list (node * (State -> pystr) * list (pystr * node)))
  : option ((State -> pystr) * list (pystr * node)) :=
  match ces with
  | [] => None
  | (n', router, mapping) :: rest =>
      if node_eqb n' n then Some (router, mapping) else lookup_conditional n rest
  end.

(** Modelled from the spec: edge routing (the engine behind [g.compile] is
    missing from the sources).  After a node has run, its router picks a
    label of the static mapping when the node has conditional edges; a
    plain edge is followed unconditionally. *)
Definition next_node (n : node) (s : State) : option target :=
  match lookup_conditional n conditional_edges with
  | Some (router, mapping) =>
      match lookup_label (router s) mapping with
      | Some m => Some (To m)
      | None => None
      end
  | None => lookup_edge n edges
  end.

(** Modelled from the spec: the walk of [invoke] (the engine behind
    [g.compile] is missing from the sources).  Nodes run in sequence from
    [n], each on the state the one before returned, until the terminal
    state is reached, a node suspends or a node raises.  The resume value
    goes to the node the walk starts from.  The result comes with the
    sequence of nodes executed. *)
Inductive walks : node -> option json -> State -> list node -> execution_result -> Prop :=
| walks_end n r s s' :
    node_fn W n r s = Next s' -> next_node n s' = Some END ->
    walks n r s [n] (Completed s')
| walks_next n r s s' m t res :
    node_fn W n r s = Next s' -> next_node n s' = Some (To m) ->
    walks m None s' t res ->
    walks n r s (n :: t) res
| walks_no_edge n r s s' :
    node_fn W n r s = Next s' -> next_node n s' = None ->
    walks n r s [n] (Fault NoEdge)
| walks_interrupt n r s p :
    node_fn W n r s = Interrupt p ->
    walks n r s [n] (Suspended s n p)
| walks_raised n r s e :
    node_fn W n r s = Raised e ->
    walks n r s [n] (Fault (NodeRaised e)).

(** The same walk as a function, bounded by the engine's step limit. *)
Definition recursion_limit : nat := 25.

Fixpoint walk (fuel : nat) (n : node) (r : option json) (s : State)
  : list node * execution_result :=
  match fuel with
  | O => ([], Fault StepLimit)
  | S fuel' =>
      match node_fn W n r s with
      | Next s' =>
          match next_node n s' with
          | Some END => ([n], Completed s')
          | Some (To m) =>
              let (t, res) := walk fuel' m None s' in (n :: t, res)
          | None => ([n], Fault NoEdge)
          end
      | Interrupt p => ([n], Suspended s n p)
      | Raised e => ([n], Fault (NodeRaised e))
      end
  end.

(** Modelled from the spec: what a suspension leaves in the store (the
    engine behind [g.compile] is missing from the sources): the state and
    the payload are saved under the run identifier; other results leave
    the store alone. *)
Definition checkpointed (st : store) (id : run_id) (res : execution_result) : store :=
  match res with
  | Suspended s n p => save st id (Checkpoint s n p)
  | _ => st
  end.

(** Modelled from the spec: [invoke] (the engine behind [g.compile] is
    missing from the sources).  A fresh initial state starts at the entry
    point; a resume value continues the run whose checkpoint is stored
    under the identifier, at its pending node. *)
Definition invoke (st : store) (input : invoke_input) (id : run_id)
  : list node * execution_result * store :=
  match input with
  | Fresh initial =>
      let (t, res) := walk recursion_limit entry_point None initial in
      (t, res, checkpointed st id res)
  | Resume v =>
      match load st id with
      | None => ([], Fault CheckpointMiss, st)
      | Some ck =>
          let (t, res) := walk recursion_limit (ck_pending ck) (Some v) (ck_state ck) in
          (t, res, checkpointed st id res)
      end
  end.

(** [invoke] as a relation over the unbounded walk. *)
Inductive invokes : store -> invoke_input -> run_id ->
                    list node -> execution_result -> store -> Prop :=
| invokes_fresh st id initial t res :
    walks entry_point None initial t res ->
    invokes st (Fresh initial) id t res (checkpointed st id res)
| invokes_resume st id v ck t res :
    load st id = Some ck ->
    walks (ck_pending ck) (Some v) (ck_state ck) t res ->
    invokes st (Resume v) id t res (checkpointed st id res)
| invokes_miss st id v :
    load st id = None ->
    invokes st (Resume v) id [] (Fault CheckpointMiss) st.


End WithWorld.

End Engine.

(** ** The specification's words: its extractor and its data model *)

Module Spec.
Import Re Json Utils.

#[local] Open Scope N_scope.

(** The second search of the specification: a greedy bracket-delimited
    pattern, a bracket, any text taken greedily, a bracket. *)
Definition greedy_array : regex :=
  Seq (Chr 91) (Seq (Star true any_char) (Chr 93)).

(** [extractArray] of the specification: the fenced block first, then the
    first greedy bracket-delimited substring; the empty sequence when
    nothing is found or decoding fails. *)
Definition extractArray (text : pystr) : list json :=
  match search fenced_array text with
  | Some m =>
      match group1 text m with
      | Some json_str => loads_or_empty json_str
      | None => []
      end
  | None =>
      match search greedy_array text with
      | Some m => loads_or_empty (group0 text m)
      | None => []
      end
  end.

(** A Job of the data model, as the nodes meet it: a [dict] whose [id] and
    [description], when present, are strings.  [has_description] is what
    the enrich node relies on, [has_id] what the selection node relies on. *)
Definition str_field (k : pystr) (d : dict) : bool :=
  match dict_lookup k d with
  | None | Some (JStr _) => true
  | Some _ => false
  end.

Definition has_description (j : json) : bool :=
  match j with
  | JObj d => str_field (py "description") d
  | _ => false
  end.

Definition has_id (j : json) : bool :=
  match j with
  | JObj d => str_field (py "id") d
  | _ => false
  end.

Definition is_job (j : json) : bool := has_id j && has_description j.

Definition is_str (v : json) : bool :=
  match v with JStr _ => true | _ => false end.

(** The resume input format: a value that is told to be a list of ids by
    its first element is a list of strings. *)
Definition is_resume_value (v : json) : bool :=
  match v with
  | JArr (JStr _ :: others) => forallb is_str others
  | _ => true
  end.

(** A resume value that is neither a list of ids nor a list of job
    objects: not a list, an empty list, or a list whose first element is
    neither a string nor a [dict]. *)
Definition is_garbage (v : json) : bool :=
  match v with
  | JArr (JStr _ :: _) | JArr (JObj _ :: _) => false
  | _ => true
  end.

(** Whether the [id] of a job is one of [ids]. *)
Definition id_among (ids : list pystr) (j : json) : bool :=
  match j with
  | JObj d =>
      match dict_lookup (py "id") d with
      | Some (JStr i) => existsb (pystr_eqb i) ids
      | _ => false
      end
  | _ => false
  end.

(** The fields computed before the human selection. *)
Definition same_upstream (s s' : Graph.State) : Prop :=
  Graph.seed_terms s' = Graph.seed_terms s
  /\ Graph.location s' = Graph.location s
  /\ Graph.resume_pdf_path s' = Graph.resume_pdf_path s
  /\ Graph.jobs s' = Graph.jobs s
  /\ Graph.needs_enrichment s' = Graph.needs_enrichment s
  /\ Graph.enriched_jobs s' = Graph.enriched_jobs s
  /\ Graph.ranked_jobs s' = Graph.ranked_jobs s
  /\ Graph.shortlisted_jobs s' = Graph.shortlisted_jobs s.

(** The two tags of the enrich node, and a job with its tagged copy. *)
Definition long_desc : json := JStr (py "long-desc").
Definition short_desc : json := JStr (py "short-desc").

Definition tagged (j j' : json) : Prop :=
  exists d desc,
    j = JObj d
    /\ dict_get d (py "description") (JStr []) = JStr desc
    /\ j' = JObj (dict_set (py "enriched_tag")
                           (if (50 <? length desc)%nat then long_desc else short_desc) d).

(** Additive only: a field of the prior state is still there, unchanged or
    overwritten. *)
Definition kept {A} (field : Graph.State -> option A) (s s' : Graph.State) : Prop :=
  field s' = field s \/ exists v, field s' = Some v.

Definition additive (s s' : Graph.State) : Prop :=
  kept Graph.seed_terms s s' /\ kept Graph.location s s'
  /\ kept Graph.resume_pdf_path s s' /\ kept Graph.jobs s s'
  /\ kept Graph.needs_enrichment s s' /\ kept Graph.enriched_jobs s s'
  /\ kept Graph.ranked_jobs s s' /\ kept Graph.shortlisted_jobs s s'
  /\ kept Graph.selected_jobs s s' /\ kept Graph.tailored_resumes s s'.

End Spec.

(** ** Concrete inputs *)

Module Examples.
Import Utils Agents Graph Engine.


Definition answer (text : pystr) : agent_result :=
  ResultDict [Message (Some (Text text))].

Definition timeout : exn := Exn (py "TimeoutError") (py "timed out").

(** The agents are out of reach: every call raises. *)
Definition failing_world : World :=
  {| search_agent_executor := fun _ => Raise timeout;
     screen_agent_executor := fun _ => Raise timeout;
     tailor_agent_executor := fun _ => Raise timeout;
     json_dumps := fun _ => py "[]";
     py_str := fun _ => py "?" |}.

(** Mocked agents: the search agent finds nothing, the screen agent
    answers with three jobs, the tailor agent fails. *)
Definition mocked_world : World :=
  {| search_agent_executor := fun _ => Ok (answer (py "Sorry, nothing found."));
     screen_agent_executor :=
       fun _ => Ok (answer (pyq "[{'id':'id1'},{'id':'id2'},{'id':'id3'}]"));
     tailor_agent_executor := fun _ => Raise timeout;
     json_dumps := fun _ => py "[]";
     py_str := fun _ => py "?" |}.

Definition empty_state : State :=
  mkState None None None None None None None None None None.

(** The initial state of [main.py]. *)
Definition initial_state : State :=
  mkState (Some [py "python"; py "full stack"; py "ml"])
          (Some (Some (py "San Francisco")))
          (Some (py "Jane Doe Resume.pdf"))
          None None None None None None None.

Definition job_id (id : string) : json := JObj [(py "id", JStr (py id))].

Definition three_ranked : list json := [job_id "id1"; job_id "id2"; job_id "id3"].

Definition ranked_state : State :=
  with_shortlisted_jobs (with_ranked_jobs initial_state three_ranked) three_ranked.

Definition thread : run_id := py "workshop-thread".

(** The run of [mocked_world] from [initial_state]: where it suspends, and
    where it ends when resumed with the ids [id3] and [id1]. *)
Definition suspended_state : State :=
  with_shortlisted_jobs
    (with_ranked_jobs
       (with_needs_enrichment
          (with_jobs initial_state (fallback_jobs (Some (py "San Francisco")))) false)
       three_ranked)
    three_ranked.

Definition suspended_payload : payload :=
  Payload (py "Select top 2 job IDs or objects to tailor.") three_ranked.


Definition id3_id1 : json := JArr [JStr (py "id3"); JStr (py "id1")].

End Examples.

(** ** [src/tools.py] *)

Module Tools.

#[local] Open Scope result_scope.

(** [str(i)] for a natural number, as in the f-string [yc_{i}] *)
Definition decimal (i : nat) : pystr :=
  py (NilEmpty.string_of_uint (Nat.to_uint i)).

(** [x or y] on values *)
Definition or_else (v dflt : json) : json := if truthy v then v else dflt.

(** What [for j in v] runs over: the elements of a list, the characters of
    a string, the keys of a dict; other values cannot be iterated. *)
Definition iterate (v : json) : result (list json) :=
  match v with
  | JArr l => Ok l
  | JStr s => Ok (map (fun c => JStr [c]) s)
  | JObj d => Ok (map (fun kv => JStr (fst kv)) d)
  | _ => Raise (TypeError (py "'" ++ type_name v ++ py "' object is not iterable"))
  end.

Section YCombinatorSearch.
(** [str(v)] and [t.title()], of the Python library. *)
Variable py_str : json -> pystr.
Variable title : pystr -> pystr.
(** The import of the helper script and its call [yc_search_real(terms,
    location, limit=50)]: the value returned, or the exception of either. *)
Variable yc_search_real : list pystr -> option pystr -> result json.

(** The dict built for one result of the helper. *)
Definition clean_job (location : option pystr) (j : json) : result json :=
  id <- get_method j (py "id") JNull ;;
  ttl <- get_method j (py "title") JNull ;;
  company <- get_method j (py "company") JNull ;;
  loc <- get_method j (py "location") JNull ;;
  description <- get_method j (py "description") JNull ;;
  url <- get_method j (py "url") JNull ;;
  Ok (JObj [(py "id", JStr (py_str (or_else id (JStr []))));
            (py "source", JStr (py "ycombinator"));
            (py "title", or_else ttl (JStr []));
            (py "company", or_else company (JStr []));
            (py "location", or_else loc (JStr (Graph.str_or location [])));
            (py "description", or_else description (JStr []));
            (py "url", or_else url (JStr []))]).

Fixpoint clean_all (location : option pystr) (results : list json)
  : result (list json) :=
  match results with
  | [] => Ok []
  | j :: rest =>
      j' <- clean_job location j ;;
      rest' <- clean_all location rest ;;
      Ok (j' :: rest')
  end.

(** The stub jobs of the [except] branch, one per term, numbered from [i]. *)
Fixpoint stub_jobs (i : nat) (terms : list pystr) (location : pystr) : list json :=
  match terms with
  | [] => []
  | t :: rest =>
      JObj [(py "id", JStr (py "yc_" ++ decimal i));
            (py "source", JStr (py "ycombinator"));
            (py "title", JStr (title t ++ py " Engineer"));
            (py "company", JStr (py "StartupCo"));
            (py "location", JStr location);
            (py "description",
             JStr (py "Seeking " ++ t
                   ++ py " engineer to build MVP features across stack."))]
      :: stub_jobs (S i) rest location
  end.

(** [terms or []] *)
Definition terms_or_empty (terms : option (list pystr)) : list pystr :=
  match terms with Some l => l | None => [] end.

Definition yc_search (terms : option (list pystr)) (location : option pystr)
  : list json :=
  match (results <- yc_search_real (terms_or_empty terms) location ;;
         items <- iterate (or_else results (JArr [])) ;;
         clean_all location items)
  with
  | Ok cleaned => cleaned
  | Raise _ =>
      stub_jobs 0 (terms_or_empty terms) (Graph.str_or location (py "Remote"))
  end.

End YCombinatorSearch.

(** The files on disk: the text of each file that exists. *)
Definition disk := pystr -> option pystr.

Definition write_file (fs : disk) (path text : pystr) : disk :=
  fun p => if pystr_eqb path p then Some text else fs p.

(** Text that UTF-8 can encode: no surrogate code point. *)
Definition encodable (text : pystr) : bool :=
  forallb (fun c => negb ((55296 <=? c)%N && (c <=? 57343)%N)) text.

Section WriteTailoredResumeSection.
(** What [open(path, 'a')] raises, if anything, and the exception
    [f.write] raises on a text that cannot be encoded. *)
Variable open_error : pystr -> option exn.
Variable encode_error : pystr -> exn.

(** The status string and the disk afterwards.  Opening for append creates
    a file that does not exist; the text is encoded before any of it is
    written. *)
Definition write_tailored_resume_section (fs : disk) (path content : pystr)
  : pystr * disk :=
  let path := Graph.str_or (Some path) (py "tailored_resume.txt") in
  match open_error path with
  | Some e => (py "Failed to write: " ++ exn_msg e, fs)
  | None =>
      let before := match fs path with Some text => text | None => [] end in
      if encodable (content ++ LF ++ LF)
      then (py "Wrote content to " ++ path,
            write_file fs path (before ++ content ++ LF ++ LF))
      else (py "Failed to write: " ++ exn_msg (encode_error (content ++ LF ++ LF)),
            write_file fs path before)
  end.

End WriteTailoredResumeSection.

End Tools.

(** ** [src/config.py], and the key synchronisation at the top of
    [src/agents.py] *)

Module Config.

(** The module variable [OPENAI_API_KEY] and the process environment. *)
Record settings := Settings {
  OPENAI_API_KEY : option pystr;
  environ : pystr -> option pystr
}.

Definition key_name : pystr := py "OPENAI_API_KEY".

Definition set_api_key (api_key : pystr) (st : settings) : settings :=
  Settings (Some api_key) (environ st).

(** [OPENAI_API_KEY or os.getenv('OPENAI_API_KEY')] *)
Definition get_api_key (st : settings) : option pystr :=
  match OPENAI_API_KEY st with
  | Some (c :: k) => Some (c :: k)
  | _ => environ st key_name
  end.

(** [bool(key)] for an optional string *)
Definition is_set (key : option pystr) : bool :=
  match key with
  | Some (_ :: _) => true
  | _ => false
  end.

Definition check_api_key (st : settings) : bool := is_set (get_api_key st).

(** The arguments [ChatOpenAI] is built with; the temperature is 0.2. *)
Record llm := Llm { llm_model : pystr; llm_api_key : pystr; llm_temperature : float }.

Definition ValueError (msg : pystr) : exn := Exn (py "ValueError") msg.

(** [import_error] is what the lazy import raises, if anything. *)
Definition get_llm (import_error : option exn) (api_key : option pystr)
           (st : settings) : result llm :=
  match import_error with
  | Some e => Raise e
  | None =>
      let openai_api_key := if is_set api_key then api_key else get_api_key st in
      match openai_api_key with
      | Some (c :: k) => Ok (Llm (py "gpt-4o") (c :: k) (FDec 2 (-1)))
      | _ =>
          Raise (ValueError
                   (py "OPENAI_API_KEY is not set. "
                    ++ py "Set it via: config.set_api_key('sk-...') or export OPENAI_API_KEY=sk-..."))
      end
  end.

(** [os.environ[name] = value] *)
Definition setenv (name value : pystr) (st : settings) : settings :=
  Settings (OPENAI_API_KEY st)
           (fun n => if pystr_eqb name n then Some value else environ st n).

(** The statements at the top of [agents.py]: the key of [config] is copied
    to the environment when the environment has none. *)
Definition sync_api_key (st : settings) : settings :=
  match get_api_key st with
  | Some (c :: k) =>
      if is_set (environ st key_name) then st else setenv key_name (c :: k) st
  | _ => st
  end.

End Config.

(** ** [src/main.py] and [src/demo.py]: the simulated human selection *)

Module Main.
Import Graph.

#[local] Open Scope result_scope.

(** [payload.get('shortlisted_jobs', []) or payload.get('ranked_jobs', [])]:
    the payload of [n_select] has no [shortlisted_jobs]. *)
Definition payload_jobs (p : payload) : list json :=
  match @nil json with
  | [] => payload_ranked_jobs p
  | shortlisted => shortlisted
  end.

(** [[j.get('id') for j in jobs[:2]]] *)
Fixpoint ids_of (jobs : list json) : result (list json) :=
  match jobs with
  | [] => Ok []
  | j :: rest =>
      id <- get_method j (py "id") JNull ;;
      ids <- ids_of rest ;;
      Ok (id :: ids)
  end.

Definition selected_ids (jobs : list json) : result (list json) :=
  ids_of (firstn 2 jobs).

Section WithWorld.
Variable W : Agents.World.

(** Modelled from the spec: the two calls of [graph_app.invoke] in [main]
    (the engine behind [get_graph] is missing from the sources).  The first
    runs a fresh state; when it suspends with jobs in the payload, the
    second resumes with the ids of the first two; otherwise the first
    result is the final one. *)
Definition run_workflow (st : Engine.store) (id : Engine.run_id) (initial : State)
  : result (list node * Engine.execution_result * Engine.store) :=
  let '(t1, first, st1) := Engine.invoke W st (Engine.Fresh initial) id in
  match first with
  | Engine.Suspended _ _ p =>
      match payload_jobs p with
      | [] => Ok (t1, first, st1)
      | jobs =>
          ids <- selected_ids jobs ;;
          let '(t2, final, st2) := Engine.invoke W st1 (Engine.Resume (JArr ids)) id in
          Ok (t1 ++ t2, final, st2)
      end
  | _ => Ok (t1, first, st1)
  end.

End WithWorld.

End Main.

(** ** Notions the properties are stated with *)

Module Notions.

(** The number of lists inside a value, the value itself included. *)
Fixpoint lists_in (v : json) : nat :=
  match v with
  | JArr l => S (fold_right (fun x n => lists_in x + n) 0 l)
  | JObj d => fold_right (fun kv n => lists_in (snd kv) + n) 0 d
  | _ => 0
  end.

(** The number of occurrences of a character. *)
Definition occurrences (c : char) (s : pystr) : nat :=
  length (filter (N.eqb c) s).

(** [l1] is [l2] with some elements left out. *)
Inductive subsequence {A : Type} : list A -> list A -> Prop :=
| sub_nil : subsequence [] []
| sub_skip x l1 l2 : subsequence l1 l2 -> subsequence l1 (x :: l2)
| sub_take x l1 l2 : subsequence l1 l2 -> subsequence (x :: l1) (x :: l2).

(** The content of a file is only ever extended. *)
Definition extends (fs fs' : Tools.disk) : Prop :=
  forall p text, fs p = Some text -> exists more, fs' p = Some (text ++ more).

End Notions.

(** * Facts *)

(** ** The decoder uses up its input, never its step budget *)

Module JsonFacts.
Import Json.
#[local] Open Scope N_scope.

Lemma skip_ws_length s : (length (skip_ws s) <= length s)%nat.
Proof.
  induction s as [|c s IH]; simpl; [lia|].
  destruct (is_ws c); simpl; lia.
Qed.

Lemma cons_char_length c r str rest (bound : nat) :
  cons_char c r = Some (str, rest) ->
  (forall str' rest', r = Some (str', rest') -> (length rest' < bound)%nat) ->
  (length rest < bound)%nat.
Proof.
  destruct r as [[str' rest']|]; simpl; [|discriminate].
  intros H Hr. injection H as _ <-. eapply Hr; reflexivity.
Qed.

Lemma scanstring_length : forall s str rest,
  scanstring s = Some (str, rest) -> (length rest < length s)%nat.
Proof.
  intros s. remember (length s) as n eqn:Hn.
  revert s Hn. induction n as [n IH] using lt_wf_ind.
  intros s Hn str rest H. subst n.
  destruct s as [|c s1]; simpl in H; [discriminate|].
  assert (tail : forall t c' str' rest',
             (length t <= length s1)%nat ->
             cons_char c' (scanstring t) = Some (str', rest') ->
             (length rest' < length (c :: s1))%nat).
  { intros t c' str' rest' Ht Hc. eapply cons_char_length; [exact Hc|].
    intros str2 rest2 H2.
    specialize (IH (length t) ltac:(simpl; lia) t eq_refl _ _ H2). simpl. lia. }
  destruct (c =? 34).
  { injection H as _ <-. simpl. lia. }
  destruct (c =? 92).
  2:{ destruct (c <? 32); [discriminate|]. eapply tail; [|exact H]. lia. }
  destruct s1 as [|e s2]; [discriminate|].
  destruct (e =? 117).
  2:{ destruct (backslash e); [|discriminate]. eapply tail; [|exact H]. simpl; lia. }
  destruct s2 as [|h1 [|h2 [|h3 [|h4 s3]]]]; try discriminate.
  destruct (decode_uXXXX h1 h2 h3 h4) as [uni|]; [|discriminate].
  destruct ((55296 <=? uni) && (uni <=? 56319)).
  2:{ eapply tail; [|exact H]. simpl; lia. }
  destruct s3 as [|a [|b s4]]; try (eapply tail; [|exact H]; simpl; lia).
  destruct ((a =? 92) && (b =? 117)).
  2:{ eapply tail; [|exact H]; simpl; lia. }
  destruct s4 as [|g1 [|g2 [|g3 [|g4 s5]]]]; try discriminate.
  destruct (decode_uXXXX g1 g2 g3 g4) as [uni2|]; [|discriminate].
  destruct ((56320 <=? uni2) && (uni2 <=? 57343));
    (eapply tail; [|exact H]; simpl; lia).
Qed.

Lemma take_digits_length s ds r :
  take_digits s = (ds, r) -> (length ds + length r = length s)%nat.
Proof.
  revert ds r. induction s as [|c s IH]; simpl; intros ds r H.
  - injection H as <- <-. reflexivity.
  - destruct (is_digit c).
    + destruct (take_digits s) as [ds' r'] eqn:E. injection H as <- <-.
      specialize (IH _ _ eq_refl). simpl. lia.
    + injection H as <- <-. reflexivity.
Qed.

Lemma take_sign_length sign s b r :
  take_sign sign s = (b, r) -> (length r <= length s)%nat.
Proof.
  unfold take_sign. destruct s as [|c t].
  - intros H; injection H as _ <-. lia.
  - destruct (c =? sign); intros H; injection H as _ <-; simpl; lia.
Qed.

Lemma match_integer_length s neg ds r :
  match_integer s = Some (neg, ds, r) -> (length r < length s)%nat.
Proof.
  unfold match_integer.
  destruct (take_sign 45 s) as [b s1] eqn:Es. apply take_sign_length in Es.
  destruct s1 as [|c t]; [discriminate|]. simpl in Es.
  destruct (c =? 48).
  - intros H; injection H as _ _ <-. lia.
  - destruct (is_digit c); [|discriminate].
    destruct (take_digits t) as [ds0 r0] eqn:E. intros H; injection H as _ _ <-.
    apply take_digits_length in E. lia.
Qed.

Lemma match_frac_length s fd r :
  match_frac s = (fd, r) -> (length r <= length s)%nat.
Proof.
  unfold match_frac.
  destruct (take_sign 46 s) as [[|] t] eqn:Es; apply take_sign_length in Es.
  - destruct (take_digits t) as [[|d ds] r0] eqn:E; intros H; injection H as _ <-.
    + lia.
    + apply take_digits_length in E. lia.
  - intros H; injection H as _ <-. lia.
Qed.

Lemma match_exp_length s ex r :
  match_exp s = (ex, r) -> (length r <= length s)%nat.
Proof.
  unfold match_exp. destruct s as [|e t].
  - intros H; injection H as _ <-. lia.
  - destruct ((e =? 101) || (e =? 69)).
    2:{ intros H; injection H as _ <-. lia. }
    destruct (take_sign 45 t) as [neg t1] eqn:E1. apply take_sign_length in E1.
    destruct (take_sign 43 t) as [pos t1'] eqn:E2. apply take_sign_length in E2.
    simpl snd.
    set (t2 := if neg then t1 else t1').
    assert (Ht2 : (length t2 <= length t)%nat) by (subst t2; destruct neg; lia).
    destruct (take_digits t2) as [[|d ds] r0] eqn:E; intros H; injection H as _ <-.
    + lia.
    + apply take_digits_length in E. simpl. lia.
Qed.

Lemma match_number_length s v r :
  match_number s = Some (v, r) -> (length r < length s)%nat.
Proof.
  unfold match_number.
  destruct (match_integer s) as [[[neg ds] r0]|] eqn:Ei; [|discriminate].
  apply match_integer_length in Ei.
  destruct (match_frac r0) as [fd r1] eqn:Ef. apply match_frac_length in Ef.
  destruct (match_exp r1) as [ex r2] eqn:Ee. apply match_exp_length in Ee.
  intros H. assert (r = r2); [|subst; lia].
  destruct fd; destruct ex; congruence.
Qed.

Lemma strip_prefix_length w s r :
  strip_prefix w s = Some r -> (length r + length w = length s)%nat.
Proof.
  revert s. induction w as [|c w IH]; simpl; intros s H.
  - injection H as <-. lia.
  - destruct s as [|x s']; [discriminate|].
    destruct (x =? c); [|discriminate]. apply IH in H. simpl. lia.
Qed.

Lemma scan_scalar_length s v r :
  scan_scalar s = Parsed v r -> (length r < length s)%nat.
Proof.
  unfold scan_scalar.
  repeat match goal with
  | |- match strip_prefix ?w s with _ => _ end = _ -> _ =>
      let E := fresh "E" in
      destruct (strip_prefix w s) eqn:E;
      [ intros H; injection H as _ <-; apply strip_prefix_length in E;
        simpl in E; lia | ]
  | |- match match_number s with _ => _ end = _ -> _ =>
      let E := fresh "E" in
      destruct (match_number s) as [[? ?]|] eqn:E;
      [ intros H; injection H as _ <-; apply match_number_length in E; exact E | ]
  end.
  discriminate.
Qed.

Lemma scan_scalar_fuel s : scan_scalar s <> OutOfFuel.
Proof.
  unfold scan_scalar.
  repeat match goal with
  | |- match ?x with _ => _ end <> _ => destruct x
  end; discriminate.
Qed.


Lemma scan_length n :
  (forall s v r, scan_once n s = Parsed v r -> (length r < length s)%nat) /\
  (forall s acc v r, array_items n s acc = Parsed v r -> (length r < length s)%nat) /\
  (forall s acc v r, object_items n s acc = Parsed v r -> (length r < length s)%nat).
Proof.
  induction n as [|n (IHs & IHa & IHo)]; [repeat split; discriminate|].
  repeat split.
  - intros [|c t] v r; simpl; [discriminate|].
    destruct (c =? 34).
    { destruct (scanstring t) as [[str r0]|] eqn:E; [|discriminate].
      intros H; injection H as _ <-. apply scanstring_length in E. lia. }
    pose proof (skip_ws_length t) as Hw.
    destruct (c =? 123).
    { destruct (skip_ws t) as [|c1 t1]; [discriminate|]. simpl in Hw.
      destruct (c1 =? 34); [intros H; apply IHo in H; lia|].
      destruct (c1 =? 125); [|discriminate].
      intros H; injection H as _ <-. lia. }
    destruct (c =? 91).
    { destruct (skip_ws t) as [|c1 t1]; [discriminate|]. simpl in Hw.
      destruct (c1 =? 93); [intros H; injection H as _ <-; lia|].
      intros H; apply IHa in H. simpl in H. lia. }
    intros H. apply scan_scalar_length in H. exact H.
  - intros s acc v r; simpl; unfold array_round.
    destruct (scan_once n s) as [v0 r0| |] eqn:E; try discriminate.
    apply IHs in E. pose proof (skip_ws_length r0) as Hw.
    destruct (skip_ws r0) as [|c1 r1]; [discriminate|]. simpl in Hw.
    destruct (c1 =? 93); [intros H; injection H as _ <-; lia|].
    destruct (c1 =? 44); [|discriminate].
    intros H; apply IHa in H. pose proof (skip_ws_length r1). lia.
  - intros s acc v r; simpl; unfold object_round.
    destruct (scanstring s) as [[key r0]|] eqn:Ek; [|discriminate].
    apply scanstring_length in Ek. pose proof (skip_ws_length r0) as Hw.
    destruct (skip_ws r0) as [|c1 r1]; [discriminate|]. simpl in Hw.
    destruct (c1 =? 58); [|discriminate].
    destruct (scan_once n (skip_ws r1)) as [v0 r2| |] eqn:E; try discriminate.
    apply IHs in E. pose proof (skip_ws_length r1) as Hw1.
    pose proof (skip_ws_length r2) as Hw2.
    destruct (skip_ws r2) as [|c2 r3]; [discriminate|]. simpl in Hw2.
    destruct (c2 =? 125); [intros H; injection H as _ <-; lia|].
    destruct (c2 =? 44); [|discriminate].
    pose proof (skip_ws_length r3) as Hw3.
    destruct (skip_ws r3) as [|c3 r4]; [discriminate|]. simpl in Hw3.
    destruct (c3 =? 34); [|discriminate].
    intros H; apply IHo in H. lia.
Qed.

(** With [2 * length s + 1] steps the decoder never stops for lack of steps. *)
Lemma scan_fuel n :
  (forall s, (2 * length s + 1 <= n)%nat -> scan_once n s <> OutOfFuel) /\
  (forall s acc, (2 * length s + 2 <= n)%nat -> array_items n s acc <> OutOfFuel) /\
  (forall s acc, (2 * length s + 2 <= n)%nat -> object_items n s acc <> OutOfFuel).
Proof.
  induction n as [|n (IHs & IHa & IHo)]; [repeat split; intros; lia|].
  destruct (scan_length n) as (Ls & La & Lo).
  repeat split.
  - intros [|c t] Hn; simpl; [discriminate|]. simpl in Hn.
    destruct (c =? 34); [destruct (scanstring t) as [[? ?]|]; discriminate|].
    pose proof (skip_ws_length t) as Hw.
    destruct (c =? 123).
    { destruct (skip_ws t) as [|c1 t1]; [discriminate|]. simpl in Hw.
      destruct (c1 =? 34); [apply IHo; lia|].
      destruct (c1 =? 125); discriminate. }
    destruct (c =? 91).
    { destruct (skip_ws t) as [|c1 t1]; [discriminate|]. simpl in Hw.
      destruct (c1 =? 93); [discriminate|]. apply IHa. simpl. lia. }
    apply scan_scalar_fuel.
  - intros s acc Hn; simpl; unfold array_round.
    destruct (scan_once n s) as [v0 r0| |] eqn:E; try discriminate.
    + apply Ls in E. pose proof (skip_ws_length r0) as Hw.
      destruct (skip_ws r0) as [|c1 r1]; [discriminate|]. simpl in Hw.
      destruct (c1 =? 93); [discriminate|].
      destruct (c1 =? 44); [|discriminate].
      apply IHa. pose proof (skip_ws_length r1). lia.
    + exfalso. revert E. apply IHs. lia.
  - intros s acc Hn; simpl; unfold object_round.
    destruct (scanstring s) as [[key r0]|] eqn:Ek; [|discriminate].
    apply scanstring_length in Ek. pose proof (skip_ws_length r0) as Hw.
    destruct (skip_ws r0) as [|c1 r1]; [discriminate|]. simpl in Hw.
    destruct (c1 =? 58); [|discriminate].
    pose proof (skip_ws_length r1) as Hw1.
    destruct (scan_once n (skip_ws r1)) as [v0 r2| |] eqn:E; try discriminate.
    + apply Ls in E. pose proof (skip_ws_length r2) as Hw2.
      destruct (skip_ws r2) as [|c2 r3]; [discriminate|]. simpl in Hw2.
      destruct (c2 =? 125); [discriminate|].
      destruct (c2 =? 44); [|discriminate].
      pose proof (skip_ws_length r3) as Hw3.
      destruct (skip_ws r3) as [|c3 r4]; [discriminate|]. simpl in Hw3.
      destruct (c3 =? 34); [|discriminate].
      apply IHo. lia.
    + exfalso. revert E. apply IHs. lia.
Qed.

Lemma scan_once_enough_fuel s : scan_once (enough_fuel s) s <> OutOfFuel.
Proof. apply (proj1 (scan_fuel _)). unfold enough_fuel. lia. Qed.

(** More steps do not change an answer. *)
Lemma scan_more_fuel n :
  (forall s, scan_once n s <> OutOfFuel -> scan_once (S n) s = scan_once n s) /\
  (forall s acc, array_items n s acc <> OutOfFuel ->
                 array_items (S n) s acc = array_items n s acc) /\
  (forall s acc, object_items n s acc <> OutOfFuel ->
                 object_items (S n) s acc = object_items n s acc).
Proof.
  induction n as [|n (IHs & IHa & IHo)]; [repeat split; intros; simpl in *; congruence|].
  repeat split.
  - intros s H.
    change (scan_round (array_items (S n)) (object_items (S n)) s
            = scan_round (array_items n) (object_items n) s).
    change (scan_round (array_items n) (object_items n) s <> OutOfFuel) in H.
    unfold scan_round in *. destruct s as [|c t]; [reflexivity|].
    destruct (c =? 34); [reflexivity|].
    destruct (c =? 123).
    { destruct (skip_ws t) as [|c1 t1]; [reflexivity|].
      destruct (c1 =? 34); [apply IHo; exact H|reflexivity]. }
    destruct (c =? 91); [|reflexivity].
    destruct (skip_ws t) as [|c1 t1]; [reflexivity|].
    destruct (c1 =? 93); [reflexivity|apply IHa; exact H].
  - intros s acc H.
    change (array_round (scan_once (S n)) (array_items (S n)) s acc
            = array_round (scan_once n) (array_items n) s acc).
    change (array_round (scan_once n) (array_items n) s acc <> OutOfFuel) in H.
    unfold array_round in *.
    rewrite IHs by (intros E; rewrite E in H; congruence).
    destruct (scan_once n s) as [v0 r0| |]; try reflexivity.
    destruct (skip_ws r0) as [|c1 r1]; [reflexivity|].
    destruct (c1 =? 93); [reflexivity|].
    destruct (c1 =? 44); [apply IHa; exact H|reflexivity].
  - intros s acc H.
    change (object_round (scan_once (S n)) (object_items (S n)) s acc
            = object_round (scan_once n) (object_items n) s acc).
    change (object_round (scan_once n) (object_items n) s acc <> OutOfFuel) in H.
    unfold object_round in *.
    destruct (scanstring s) as [[key r0]|]; [|reflexivity].
    destruct (skip_ws r0) as [|c1 r1]; [reflexivity|].
    destruct (c1 =? 58); [|reflexivity].
    rewrite IHs by (intros E; rewrite E in H; congruence).
    destruct (scan_once n (skip_ws r1)) as [v0 r2| |]; try reflexivity.
    destruct (skip_ws r2) as [|c2 r3]; [reflexivity|].
    destruct (c2 =? 125); [reflexivity|].
    destruct (c2 =? 44); [|reflexivity].
    destruct (skip_ws r3) as [|c3 r4]; [reflexivity|].
    destruct (c3 =? 34); [apply IHo; exact H|reflexivity].
Qed.

(** The decoder's answer does not depend on the budget once it is large
    enough. *)
Lemma scan_once_budget s n :
  (enough_fuel s <= n)%nat -> scan_once n s = scan_once (enough_fuel s) s.
Proof.
  induction 1 as [|m Hle IH]; [reflexivity|].
  rewrite <- IH. apply (proj1 (scan_more_fuel m)).
  rewrite IH. apply scan_once_enough_fuel.
Qed.


End JsonFacts.

(** ** What the matcher finds *)

Module ReFacts.
Import Re Utils.
#[local] Open Scope N_scope.


Section Inversion.
Variable A : Type.
Variable text : pystr.




End Inversion.











End ReFacts.

(** ** The result extractor *)

Module UtilsFacts.
Import Re Json Utils Examples JsonFacts ReFacts.
#[local] Open Scope N_scope.




(** Conversely a nested array, which the greedy search would find, is cut
    at its first closing bracket. *)
Lemma extract_json_from_markdown_nested :
  extract_json_from_markdown (py "[[1],[2]]") = []
  /\ Spec.extractArray (py "[[1],[2]]") = [JArr [JInt 1]; JArr [JInt 2]].
Proof. split; vm_compute; reflexivity. Qed.

End UtilsFacts.

(** ** Strings and dicts *)

Module PyFacts.

Lemma pystr_eqb_eq a : forall b, pystr_eqb a b = true <-> a = b.
Proof.
  induction a as [|x a IH]; intros [|y b]; simpl; split; try congruence.
  - intros H. apply andb_true_iff in H. destruct H as [Hx Hab].
    apply N.eqb_eq in Hx. apply IH in Hab. congruence.
  - intros H. injection H as -> ->. rewrite N.eqb_refl. simpl. apply IH. reflexivity.
Qed.

Lemma pystr_eqb_refl a : pystr_eqb a a = true.
Proof. apply pystr_eqb_eq. reflexivity. Qed.

Lemma pystr_eqb_neq a b : a <> b -> pystr_eqb a b = false.
Proof.
  intros H. destruct (pystr_eqb a b) eqn:E; [|reflexivity].
  apply pystr_eqb_eq in E. contradiction.
Qed.

(** [d[k] = v] then [d.get(k)] *)
Lemma dict_lookup_set k v d : dict_lookup k (dict_set k v d) = Some v.
Proof.
  induction d as [|[k' v'] d IH]; simpl.
  - rewrite pystr_eqb_refl. reflexivity.
  - destruct (pystr_eqb k' k) eqn:E; simpl; rewrite E; auto.
Qed.

(** [d[k] = v] leaves the other keys alone. *)
Lemma dict_lookup_set_other k k' v d :
  k' <> k -> dict_lookup k' (dict_set k v d) = dict_lookup k' d.
Proof.
  intros Hne. induction d as [|[k0 v0] d IH]; simpl.
  - rewrite pystr_eqb_neq; auto.
  - destruct (pystr_eqb k0 k) eqn:E; simpl.
    + apply pystr_eqb_eq in E. subst k0. rewrite pystr_eqb_neq; auto.
    + destruct (pystr_eqb k0 k'); auto.
Qed.

End PyFacts.

(** ** The nodes *)

Module GraphFacts.
Import Utils Agents Graph Spec Examples PyFacts.

#[local] Open Scope result_scope.

(** *** The search node *)

(** An exception of the search agent leaves [invoke_search] and the node
    as it is. *)
Lemma n_search_propagates W s e :
  search_agent_executor W
    (json_dumps W (JObj [(py "terms", JArr (map JStr (get (seed_terms s) [py "python"; py "ml"])));
                         (py "location", opt_str (get_location s))])) = Raise e ->
  n_search W s = Raise e.
Proof.
  intros H. unfold n_search, invoke_search. rewrite H. reflexivity.
Qed.

(** When the agent returns and nothing can be extracted from its answer,
    the three fallback jobs are put in. *)
Lemma n_search_fallback W s r :
  search_agent_executor W
    (json_dumps W (JObj [(py "terms", JArr (map JStr (get (seed_terms s) [py "python"; py "ml"])));
                         (py "location", opt_str (get_location s))])) = Ok r ->
  extract_agent_results r = [] ->
  n_search W s = Ok (with_needs_enrichment
                       (with_jobs s (fallback_jobs (get_location s))) false)
  /\ length (fallback_jobs (get_location s)) = 3.
Proof.
  intros H He. unfold n_search, invoke_search. rewrite H. simpl. rewrite He.
  split; reflexivity.
Qed.

(** C2, on the failing input: with a search agent that raises, the search
    node puts no fallback jobs in; the exception leaves the node and ends
    the run. *)
Theorem n_search_raises_with_agent :
  n_search failing_world initial_state = Raise timeout
  /\ node_fn failing_world search_agent None initial_state = Raised timeout
  /\ Engine.invoke failing_world Engine.empty_store (Engine.Fresh initial_state) thread
     = ([search_agent], Engine.Fault (Engine.NodeRaised timeout), Engine.empty_store).
Proof. repeat split. Qed.

(** By contrast the tailor agent's exception is caught by its caller. *)
Lemma n_tailor_catches_agent :
  n_tailor failing_world (with_selected_jobs ranked_state three_ranked)
  = Ok (with_tailored_resumes (with_selected_jobs ranked_state three_ranked)
          [(py "error", JStr (py "Tailor call failed: timed out"))]).
Proof. vm_compute. reflexivity. Qed.

(** *** Routing after the search *)

(** C3: in every state the search node produces, [needs_enrichment] is
    true exactly when there are more than 12 jobs; the router sends such a
    state to the enrich node and any other to the screen node; and the
    conditional edges from the search node are the only ones of the graph. *)
Theorem search_routing W s s' :
  n_search W s = Ok s' ->
  exists found,
    jobs s' = Some found
    /\ needs_enrichment s' = Some (12 <? length found)
    /\ (needs_enrichment s' = Some true <-> 12 < length found)
    /\ lookup_label (route_from_search s')
                    [(py "enrich", enrich_node); (py "screen", screen_agent)]
       = Some (if 12 <? length found then enrich_node else screen_agent)
    /\ conditional_edges
       = [(search_agent, route_from_search,
           [(py "enrich", enrich_node); (py "screen", screen_agent)])]
    /\ length conditional_edges = 1.
Proof.
  unfold n_search. destruct (invoke_search W _ _) as [found|e]; [|discriminate].
  simpl. intros H; injection H as <-.
  set (js := match found with [] => _ | _ => found end).
  exists js. simpl. repeat split; auto.
  - intros H; injection H as H. apply Nat.ltb_lt. exact H.
  - intros H. apply Nat.ltb_lt in H. rewrite H. reflexivity.
  - unfold route_from_search. simpl. destruct (12 <? length js); reflexivity.
Qed.

Lemma search_routing_witness :
  exists s', n_search mocked_world initial_state = Ok s'
             /\ needs_enrichment s' = Some false
             /\ lookup_label (route_from_search s')
                             [(py "enrich", enrich_node); (py "screen", screen_agent)]
                = Some screen_agent.
Proof.
  eexists. split; [vm_compute; reflexivity|].
  destruct (@search_routing mocked_world initial_state _ eq_refl)
    as (found & Hj & Hn & _ & Hr & _).
  vm_compute in Hj. injection Hj as <-. split; [exact Hn|exact Hr].
Defined.


(** *** The enrich node *)

Lemma enrich_job_tagged j :
  has_description j = true -> exists j', enrich_job j = Ok j' /\ tagged j j'.
Proof.
  destruct j as [| | | | |l|d]; try discriminate.
  unfold has_description, str_field, enrich_job, py_dict, bind, tagged, dict_get.
  intros H.
  destruct (dict_lookup (py "description") d) as [[| | | |desc| |]|] eqn:E;
    try discriminate; unfold py_len.
  - eexists; split; [reflexivity|]. exists d, desc. rewrite E.
    repeat split. destruct (50 <? length desc); reflexivity.
  - eexists; split; [reflexivity|]. exists d, []. rewrite E.
    repeat split.
Qed.

Lemma enrich_all_tagged js :
  forallb has_description js = true ->
  exists enriched, enrich_all js = Ok enriched /\ Forall2 tagged js enriched.
Proof.
  induction js as [|j js IH]; simpl; intros H.
  - exists []. split; [reflexivity|constructor].
  - apply andb_true_iff in H. destruct H as [Hj Hjs].
    destruct (enrich_job_tagged _ Hj) as (j' & -> & Ht).
    destruct (IH Hjs) as (enriched & -> & Hall).
    exists (j' :: enriched). split; [reflexivity|constructor; assumption].
Qed.

Lemma tagged_tag j j' :
  tagged j j' ->
  exists d d' desc,
    j = JObj d /\ j' = JObj d'
    /\ dict_get d (py "description") (JStr []) = JStr desc
    /\ (dict_lookup (py "enriched_tag") d' = Some long_desc <-> 50 < length desc)
    /\ (dict_lookup (py "enriched_tag") d' = Some short_desc <-> length desc <= 50)
    /\ (forall k, k <> py "enriched_tag" -> dict_lookup k d' = dict_lookup k d).
Proof.
  intros (d & desc & -> & Hd & ->). do 3 eexists.
  split; [reflexivity|]. split; [reflexivity|]. split; [exact Hd|].
  rewrite dict_lookup_set.
  destruct (50 <? length desc) eqn:E;
    [apply Nat.ltb_lt in E|apply Nat.ltb_ge in E];
    (split; [|split]);
    try (split; [intros H; (lia || discriminate H)
                |intros H; (reflexivity || lia)]);
    intros k Hk; apply dict_lookup_set_other; exact Hk.
Qed.

(** C4: on a state whose jobs are dicts whose description, when present,
    is a string (the Jobs of the data model are), the enrich node returns the
    state with [enriched_jobs] set to the jobs, each a copy with the one
    key [enriched_tag] added; the tag is [long-desc] exactly when the
    description has more than 50 characters and [short-desc] exactly when
    it has not; the jobs themselves and every other field stay as they
    were. *)
Theorem n_enrich_tags (s : State) :
  forallb has_description (get (jobs s) []) = true ->
  exists enriched,
    n_enrich s = Ok (with_enriched_jobs s enriched)
    /\ jobs (with_enriched_jobs s enriched) = jobs s
    /\ Forall2 (fun j j' =>
         exists d d' desc,
           j = JObj d /\ j' = JObj d'
           /\ dict_get d (py "description") (JStr []) = JStr desc
           /\ (dict_lookup (py "enriched_tag") d' = Some long_desc
               <-> 50 < length desc)
           /\ (dict_lookup (py "enriched_tag") d' = Some short_desc
               <-> length desc <= 50)
           /\ (forall k, k <> py "enriched_tag" ->
                         dict_lookup k d' = dict_lookup k d))
         (get (jobs s) []) enriched.
Proof.
  intros H. destruct (enrich_all_tagged _ H) as (enriched & He & Hall).
  exists enriched. unfold n_enrich. rewrite He. repeat split.
  eapply Forall2_impl; [|exact Hall]. intros j j'. apply tagged_tag.
Qed.

Lemma n_enrich_tags_witness :
  forallb has_description (fallback_jobs None) = true
  /\ exists enriched,
       n_enrich (with_jobs empty_state (fallback_jobs None))
       = Ok (with_enriched_jobs (with_jobs empty_state (fallback_jobs None)) enriched)
       /\ length enriched = 3.
Proof.
  split; [reflexivity|].
  destruct (@n_enrich_tags (with_jobs empty_state (fallback_jobs None)) eq_refl)
    as (enriched & He & _ & Hall).
  exists enriched. split; [exact He|].
  apply Forall2_length in Hall. rewrite <- Hall. reflexivity.
Defined.

(** *** The screen node *)

(** C5: whatever the state and whatever the screen agent answers, after
    the screen node [ranked_jobs] and [shortlisted_jobs] are both the first
    10 of what [invoke_screen] made of the answer, so they are equal and
    have at most 10 elements. *)
Theorem n_screen_cap (W : World) (s : State) (output : pystr -> agent_result) :
  (forall prompt, screen_agent_executor W prompt = Ok (output prompt)) ->
  exists filtered s',
    invoke_screen W (base_jobs s) (get (resume_pdf_path s) []) = Ok filtered
    /\ n_screen W s = Ok s'
    /\ ranked_jobs s' = Some (firstn 10 filtered)
    /\ shortlisted_jobs s' = Some (firstn 10 filtered)
    /\ ranked_jobs s' = shortlisted_jobs s'
    /\ length (firstn 10 filtered) <= 10.
Proof.
  intros Hout.
  assert (Hs : exists filtered,
             invoke_screen W (base_jobs s) (get (resume_pdf_path s) []) = Ok filtered).
  { unfold invoke_screen. destruct (base_jobs s); [eauto|].
    rewrite Hout. simpl. eauto. }
  destruct Hs as [filtered Hs]. exists filtered. eexists.
  split; [exact Hs|]. unfold n_screen. rewrite Hs. unfold bind.
  repeat split. apply firstn_le_length.
Qed.

Lemma n_screen_cap_witness :
  exists s', n_screen mocked_world (with_jobs initial_state (fallback_jobs None)) = Ok s'
             /\ ranked_jobs s' = Some three_ranked
             /\ shortlisted_jobs s' = Some three_ranked.
Proof.
  destruct (@n_screen_cap mocked_world (with_jobs initial_state (fallback_jobs None))
              (fun _ => answer (pyq "[{'id':'id1'},{'id':'id2'},{'id':'id3'}]"))
              (fun _ => eq_refl))
    as (filtered & s' & Hf & Hs & Hr & Hl & _).
  exists s'. split; [exact Hs|].
  vm_compute in Hf. injection Hf as <-. split; [exact Hr|exact Hl].
Defined.


(** *** The human selection node *)

Lemma py_set_strings ids : py_set (map JStr ids) = Ok (map JStr ids).
Proof.
  unfold py_set.
  assert (H : find (fun v => negb (hashable v)) (map JStr ids) = None).
  { induction ids as [|i ids IH]; simpl; auto. }
  rewrite H. reflexivity.
Qed.

Lemma existsb_strings v ids :
  existsb (py_eqb v) (map JStr ids)
  = match v with
    | JStr i => existsb (pystr_eqb i) ids
    | _ => false
    end.
Proof.
  induction ids as [|i ids IH]; simpl.
  - destruct v; reflexivity.
  - rewrite IH. destruct v as [|b|z|[| |]|t|l|d]; reflexivity.
Qed.

(** Whether a job is taken when the selection is the list of strings
    [ids]. *)
Lemma job_hit ids j :
  has_id j = true ->
  (id <- get_method j (py "id") JNull ;; set_contains (map JStr ids) id)
  = Ok (id_among ids j).
Proof.
  destruct j as [| | | | |l|d]; try discriminate.
  unfold has_id, str_field, get_method, bind, dict_get, id_among, set_contains.
  intros H.
  destruct (dict_lookup (py "id") d) as [[| | | |i| |]|];
    try discriminate; simpl hashable; cbv iota; rewrite existsb_strings; reflexivity.
Qed.

(** The loop picks the first matching jobs, in the order of the ranking,
    until two are chosen. *)
Lemma choose_by_id_filter ids : forall ranked chosen n,
  forallb has_id ranked = true -> length chosen + n = 2 ->
  choose_by_id (map JStr ids) ranked chosen
  = Ok (chosen ++ firstn n (filter (id_among ids) ranked)).
Proof.
  induction ranked as [|j ranked IH]; intros chosen n Hj Hlen.
  - simpl. rewrite firstn_nil, app_nil_r. reflexivity.
  - apply andb_true_iff in Hj. destruct Hj as [Hj Hjs].
    pose proof (job_hit ids j Hj) as Hhit. unfold bind in Hhit.
    cbn [choose_by_id filter]. unfold bind.
    destruct (get_method j (py "id") JNull) as [id|e]; [|discriminate].
    rewrite Hhit. destruct (id_among ids j); cbn [andb].
    + destruct (length chosen <? 2) eqn:E.
      * apply Nat.ltb_lt in E. destruct n as [|n]; [lia|].
        rewrite (IH _ n); [|exact Hjs|rewrite length_app; simpl; lia].
        cbn [firstn]. rewrite <- app_assoc. reflexivity.
      * apply Nat.ltb_ge in E. destruct n as [|n]; [|lia].
        rewrite (IH _ 0); auto.
    + apply IH; auto.
Qed.

Lemma resolve_selection_ids ids ranked :
  forallb has_id ranked = true ->
  resolve_selection (JArr (map JStr ids)) ranked
  = Ok (match firstn 2 (filter (id_among ids) ranked) with
        | [] => firstn 2 ranked
        | chosen => chosen
        end).
Proof.
  intros Hj. destruct ids as [|i ids].
  { assert (Hnone : filter (id_among []) ranked = []).
    { clear Hj. induction ranked as [|j ranked IH]; [reflexivity|].
      simpl. destruct j as [| | | | | |d]; auto.
      simpl. destruct (dict_lookup (py "id") d) as [[| | | |i| |]|]; auto. }
    rewrite Hnone. reflexivity. }
  unfold resolve_selection. cbn [map].
  change (JStr i :: map JStr ids) with (map JStr (i :: ids)).
  rewrite py_set_strings. unfold bind.
  rewrite (choose_by_id_filter _ _ _ 2); auto. cbn [app].
  destruct (firstn 2 (filter (id_among (i :: ids)) ranked)); reflexivity.
Qed.

Lemma resolve_selection_garbage v ranked :
  is_garbage v = true -> resolve_selection v ranked = Ok (firstn 2 ranked).
Proof.
  destruct v as [| | | | |[|[| | | | | |] l]|]; try discriminate; reflexivity.
Qed.



(** C10: on a state that has [selected_jobs] the node returns the state
    as it is, whatever [interrupt] would return, and does not suspend; so
    the state the node returns after a selection is a fixed point of the
    node. *)
Theorem n_select_idempotent (s : State) (chosen : list json) :
  selected_jobs s = Some chosen ->
  (forall resume, n_select resume s = Next s)
  /\ (forall resume p, n_select resume s <> Interrupt p)
  /\ (forall s0 s1 resume0 resume1,
         n_select resume0 s0 = Next s1 -> n_select resume1 s1 = Next s1).
Proof.
  intros Hs. repeat split.
  - intros resume. unfold n_select. rewrite Hs. reflexivity.
  - intros resume p. unfold n_select. rewrite Hs. discriminate.
  - intros s0 s1 resume0 resume1. unfold n_select at 1.
    destruct (selected_jobs s0) as [c0|] eqn:E0.
    + intros H; injection H as <-. unfold n_select. rewrite E0. reflexivity.
    + destruct resume0 as [v|]; [|discriminate].
      destruct (resolve_selection v _) as [c|e]; [|discriminate].
      intros H; injection H as <-. reflexivity.
Qed.

Lemma n_select_idempotent_witness :
  selected_jobs (with_selected_jobs ranked_state [job_id "id1"]) = Some [job_id "id1"]
  /\ n_select None (with_selected_jobs ranked_state [job_id "id1"])
     = Next (with_selected_jobs ranked_state [job_id "id1"])
  /\ n_select (Some (JArr [JStr (py "id3")])) (with_selected_jobs ranked_state [job_id "id1"])
     = Next (with_selected_jobs ranked_state [job_id "id1"]).
Proof.
  split; [reflexivity|].
  destruct (@n_select_idempotent (with_selected_jobs ranked_state [job_id "id1"])
              [job_id "id1"] eq_refl) as (H & _).
  split; apply H.
Defined.

(** *** The tailor node *)

(** [invoke_tailor] never raises. *)
Lemma invoke_tailor_total W selected path :
  exists tailored, invoke_tailor W selected path = Ok tailored.
Proof.
  unfold invoke_tailor, try_except. destruct selected; [eauto|].
  match goal with |- context [match ?b with _ => _ end] => destruct b end; eauto.
Qed.

(** C7: when the tailor agent is called (there is a selection) and the
    call raises, [invoke_tailor] returns the mapping whose one entry has
    the key [error] and tells the failure, and the tailor node returns the
    state with that mapping as [tailored_resumes]; nothing is raised. *)
Theorem n_tailor_error (W : World) (s : State) (e : exn) :
  get (selected_jobs s) [] <> [] ->
  tailor_agent_executor W
    (tailor_prompt W (get (selected_jobs s) []) (get (resume_pdf_path s) [])) = Raise e ->
  invoke_tailor W (get (selected_jobs s) []) (get (resume_pdf_path s) [])
  = Ok [(py "error", JStr (py "Tailor call failed: " ++ exn_msg e))]
  /\ n_tailor W s
     = Ok (with_tailored_resumes s
             [(py "error", JStr (py "Tailor call failed: " ++ exn_msg e))]).
Proof.
  intros Hsel He.
  assert (H : invoke_tailor W (get (selected_jobs s) []) (get (resume_pdf_path s) [])
              = Ok [(py "error", JStr (py "Tailor call failed: " ++ exn_msg e))]).
  { unfold invoke_tailor. destruct (get (selected_jobs s) []); [congruence|].
    rewrite He. reflexivity. }
  split; [exact H|]. unfold n_tailor. rewrite H. reflexivity.
Qed.

Lemma n_tailor_error_witness :
  n_tailor failing_world (with_selected_jobs ranked_state three_ranked)
  = Ok (with_tailored_resumes (with_selected_jobs ranked_state three_ranked)
          [(py "error", JStr (py "Tailor call failed: " ++ py "timed out"))]).
Proof.
  refine (proj2 (@n_tailor_error failing_world
                   (with_selected_jobs ranked_state three_ranked) timeout _ eq_refl)).
  discriminate.
Defined.

End GraphFacts.

(** ** The engine: resumption and determinism *)

Module EngineFacts.
Import Utils Agents Graph Engine Spec Examples PyFacts GraphFacts.

Section WithWorld.
Variable W : World.

(** The edges of the graph, node by node. *)
Lemma next_node_search s :
  next_node search_agent s
  = Some (To (match needs_enrichment s with
              | Some true => enrich_node
              | _ => screen_agent
              end)).
Proof.
  unfold next_node, conditional_edges. cbn [lookup_conditional node_eqb].
  unfold route_from_search.
  destruct (needs_enrichment s) as [[|]|]; reflexivity.
Qed.

Lemma next_node_rank n s m : next_node n s = Some (To m) -> rank m < rank n.
Proof.
  destruct n; try (intros H; injection H as <-; simpl; lia).
  - rewrite next_node_search. intros H; injection H as <-.
    destruct (needs_enrichment s) as [[|]|]; simpl; lia.
  - discriminate.
Qed.

(** The step limit is never reached: a walk takes at most five steps. *)
Lemma walk_enough_fuel fuel : forall n r s,
  rank n <= fuel -> snd (walk W fuel n r s) <> Fault StepLimit.
Proof.
  induction fuel as [|fuel IH]; intros n r s Hr; [destruct n; simpl in Hr; lia|].
  simpl. destruct (node_fn W n r s) as [s'|p|e]; try discriminate.
  destruct (next_node n s') as [[m|]|] eqn:E; try discriminate.
  apply next_node_rank in E. specialize (IH m None s' ltac:(lia)).
  destruct (walk W fuel m None s'). exact IH.
Qed.

Lemma walk_within_limit n r s :
  snd (walk W recursion_limit n r s) <> Fault StepLimit.
Proof. apply walk_enough_fuel. destruct n; unfold recursion_limit; simpl; lia. Qed.

(** The bounded walk is a walk. *)
Lemma walk_walks fuel : forall n r s t res,
  walk W fuel n r s = (t, res) -> res <> Fault StepLimit -> walks W n r s t res.
Proof.
  induction fuel as [|fuel IH]; intros n r s t res; simpl.
  { intros H; injection H as <- <-. congruence. }
  destruct (node_fn W n r s) as [s'|p|e] eqn:En.
  - destruct (next_node n s') as [[m|]|] eqn:Ee.
    + destruct (walk W fuel m None s') as [t' res'] eqn:Ew.
      intros H Hres; injection H as <- <-.
      eapply walks_next; eauto.
    + intros H _; injection H as <- <-. apply walks_end; auto.
    + intros H _; injection H as <- <-. eapply walks_no_edge; eauto.
  - intros H _; injection H as <- <-. apply walks_interrupt; auto.
  - intros H _; injection H as <- <-. apply walks_raised; auto.
Qed.

Lemma invoke_invokes st input id t res st' :
  invoke W st input id = (t, res, st') -> invokes W st input id t res st'.
Proof.
  unfold invoke. destruct input as [initial|v].
  - destruct (walk W recursion_limit entry_point None initial) as [t0 res0] eqn:E.
    intros H; injection H as <- <- <-. apply invokes_fresh.
    eapply walk_walks; [exact E|].
    pose proof (walk_within_limit entry_point None initial) as Hl.
    rewrite E in Hl. exact Hl.
  - destruct (load st id) as [ck|] eqn:El.
    + destruct (walk W recursion_limit (ck_pending ck) (Some v) (ck_state ck))
        as [t0 res0] eqn:E.
      intros H; injection H as <- <- <-. eapply invokes_resume; [exact El|].
      eapply walk_walks; [exact E|].
      pose proof (walk_within_limit (ck_pending ck) (Some v) (ck_state ck)) as Hl.
      rewrite E in Hl. exact Hl.
    + intros H; injection H as <- <- <-. apply invokes_miss. exact El.
Qed.


(** Only the selection node suspends, and only on a state without a
    selection. *)
Lemma walks_suspended n r s t s1 n1 p :
  walks W n r s t (Suspended s1 n1 p) ->
  n1 = human_select_interrupt /\ selected_jobs s1 = None.
Proof.
  remember (Suspended s1 n1 p) as res eqn:Hres.
  induction 1 as [| | |n r s p0 Hn|]; try discriminate; auto.
  injection Hres as <- <- <-.
  destruct n; simpl in Hn;
    try (match type of Hn with of_result ?x = _ => destruct x; discriminate end).
  unfold n_select in Hn. destruct (selected_jobs s); [discriminate|]. auto.
Qed.

End WithWorld.

(** *** Resuming a suspended run *)

Lemma strings_are_ids l : forallb is_str l = true -> exists ids, l = map JStr ids.
Proof.
  induction l as [|v l IH]; simpl; [exists []; reflexivity|].
  destruct v as [| | | |i| |]; try discriminate. intros H.
  destruct (IH H) as [ids ->]. exists (i :: ids). reflexivity.
Qed.

(** A resume value in the resume input format is resolved without an
    exception when the ranked jobs are Jobs. *)
Lemma resolve_selection_total v ranked :
  is_resume_value v = true -> forallb has_id ranked = true ->
  exists chosen, resolve_selection v ranked = Ok chosen.
Proof.
  intros Hv Hj. destruct (is_garbage v) eqn:Eg.
  { rewrite resolve_selection_garbage; eauto. }
  destruct v as [| | | | |[|[| | | |i| |first] others]|]; try discriminate.
  - simpl in Hv. destruct (strings_are_ids _ Hv) as [ids ->].
    change (JStr i :: map JStr ids) with (map JStr (i :: ids)).
    rewrite resolve_selection_ids; eauto.
  - eexists; reflexivity.
Qed.

(** The selection and the tailor node only add their own field. *)
Lemma same_upstream_selected_tailored s chosen tailored :
  same_upstream s (with_tailored_resumes (with_selected_jobs s chosen) tailored).
Proof. repeat split. Qed.

(** The walk of a resumed run, from the selection node on a state without
    a selection. *)
Lemma walk_resumed W s v :
  selected_jobs s = None ->
  walk W recursion_limit human_select_interrupt (Some v) s
  = match resolve_selection v (get (ranked_jobs s) []) with
    | Ok chosen =>
        match n_tailor W (with_selected_jobs s chosen) with
        | Ok s' => ([human_select_interrupt; tailor_agent], Completed s')
        | Raise e => ([human_select_interrupt; tailor_agent], Fault (NodeRaised e))
        end
    | Raise e => ([human_select_interrupt], Fault (NodeRaised e))
    end.
Proof.
  intros Hs. unfold recursion_limit. cbn [walk node_fn]. unfold n_select. rewrite Hs.
  destruct (resolve_selection v (get (ranked_jobs s) [])) as [chosen|e]; [|reflexivity].
  change (next_node human_select_interrupt (with_selected_jobs s chosen))
    with (Some (To tailor_agent)).
  cbn iota. cbn [walk node_fn].
  destruct (n_tailor W (with_selected_jobs s chosen)) as [s'|e]; reflexivity.
Qed.

(** Every node returns the prior state with the fields it writes added or
    overwritten; no field is dropped. *)
Lemma nodes_additive W n r s s' : node_fn W n r s = Next s' -> additive s s'.
Proof.
  assert (same : forall s0, additive s0 s0) by (intros s0; repeat split; left; reflexivity).
  destruct n; simpl.
  - unfold n_search. destruct (invoke_search W _ _); [|discriminate].
    simpl. intros H; injection H as <-.
    repeat split; try (left; reflexivity); right; eexists; reflexivity.
  - unfold n_enrich. destruct (enrich_all _); [|discriminate].
    simpl. intros H; injection H as <-.
    repeat split; try (left; reflexivity); right; eexists; reflexivity.
  - unfold n_screen. destruct (invoke_screen W _ _); [|discriminate].
    simpl. intros H; injection H as <-.
    repeat split; try (left; reflexivity); right; eexists; reflexivity.
  - unfold n_select. destruct (selected_jobs s) eqn:E.
    + intros H; injection H as <-. apply same.
    + destruct r as [v|]; [|discriminate].
      destruct (resolve_selection v _); [|discriminate].
      intros H; injection H as <-.
      repeat split; try (left; reflexivity); right; eexists; reflexivity.
  - unfold n_tailor. destruct (invoke_tailor W _ _); [|discriminate].
    simpl. intros H; injection H as <-.
    repeat split; try (left; reflexivity); right; eexists; reflexivity.
Qed.

(** C8: when a fresh [invoke] suspends, it does so at the selection node
    and leaves the suspended state in the checkpoint store; resuming the
    run with a value in the resume input format (the ranked jobs being
    Jobs) runs the selection node and the tailor node and completes, and
    the final state has the fields computed before the suspension (seed
    terms, location, resume path, jobs, needs_enrichment, enriched, ranked
    and shortlisted jobs) exactly as the suspended state had them: the two
    nodes return the prior state with [selected_jobs] and
    [tailored_resumes] added, as every node returns the prior state with
    its own fields added or overwritten. *)
Theorem resume_keeps_upstream_fields
        (W : World) (st st1 : store) (id : run_id) (initial s : State)
        (t1 : list node) (n : node) (p : payload) (v : json) :
  invoke W st (Fresh initial) id = (t1, Suspended s n p, st1) ->
  is_resume_value v = true ->
  forallb has_id (get (ranked_jobs s) []) = true ->
  n = human_select_interrupt
  /\ load st1 id = Some (Checkpoint s n p)
  /\ exists chosen tailored,
       invoke W st1 (Resume v) id
       = ([human_select_interrupt; tailor_agent],
          Completed (with_tailored_resumes (with_selected_jobs s chosen) tailored),
          st1)
       /\ same_upstream s (with_tailored_resumes (with_selected_jobs s chosen) tailored)
       /\ (forall m r s0 s1, node_fn W m r s0 = Next s1 -> additive s0 s1).
Proof.
  intros Hinv Hv Hj.
  pose proof (invoke_invokes _ _ _ _ Hinv) as Hrel.
  inversion Hrel as [st0 id0 i0 t0 res0 Hw| |]; subst.
  destruct (walks_suspended Hw) as [-> Hsel].
  assert (Hload : load (save st id (Checkpoint s human_select_interrupt p)) id
                  = Some (Checkpoint s human_select_interrupt p)).
  { unfold load, save. rewrite pystr_eqb_refl. reflexivity. }
  split; [reflexivity|]. split; [exact Hload|].
  destruct (resolve_selection_total v _ Hv Hj) as [chosen Hc].
  destruct (invoke_tailor_total W (get (selected_jobs (with_selected_jobs s chosen)) [])
              (get (resume_pdf_path (with_selected_jobs s chosen)) []))
    as [tailored Ht].
  exists chosen, tailored.
  split; [|split; [apply same_upstream_selected_tailored|apply nodes_additive]].
  unfold invoke. simpl checkpointed. rewrite Hload. cbn [ck_pending ck_state].
  rewrite walk_resumed by exact Hsel. rewrite Hc.
  unfold n_tailor. rewrite Ht. reflexivity.
Qed.


Lemma mocked_run_suspends :
  invoke mocked_world empty_store (Fresh initial_state) thread
  = ([search_agent; screen_agent; human_select_interrupt],
     Suspended suspended_state human_select_interrupt suspended_payload,
     save empty_store thread
          (Checkpoint suspended_state human_select_interrupt suspended_payload)).
Proof. vm_compute. reflexivity. Qed.

Lemma resume_keeps_upstream_fields_witness :
  exists chosen tailored,
    invoke mocked_world
           (save empty_store thread
                 (Checkpoint suspended_state human_select_interrupt suspended_payload))
           (Resume id3_id1) thread
    = ([human_select_interrupt; tailor_agent],
       Completed (with_tailored_resumes (with_selected_jobs suspended_state chosen) tailored),
       save empty_store thread
            (Checkpoint suspended_state human_select_interrupt suspended_payload))
    /\ same_upstream suspended_state
         (with_tailored_resumes (with_selected_jobs suspended_state chosen) tailored).
Proof.
  destruct (@resume_keeps_upstream_fields mocked_world empty_store _ thread
              initial_state suspended_state _ _ _ id3_id1
              mocked_run_suspends eq_refl eq_refl)
    as (_ & _ & chosen & tailored & Hrun & Hsame & _).
  exists chosen, tailored. split; [exact Hrun|exact Hsame].
Defined.

(** *** Determinism *)

Section WithWorld.
Variable W : World.





End WithWorld.



End EngineFacts.
